(** * Shallow embedding of the analysis core of analyze_hotspots.py

    Python [str] values are modelled as Rocq [string] (sequences of 8-bit
    characters); [str.lower], [str.strip] and [int] are modelled on the
    ASCII range.  Python dictionaries with string keys are stdpp [gmap]s,
    except where insertion order is observable (the hierarchy builder), where
    an association list in insertion order is used.  Floating-point division
    is modelled by exact rational division ([Q]). *)

From Stdlib Require Import QArith Qround Qpower Lqa Ascii String.
From stdpp Require Import base gmap strings list sorting.


(* ------------------------------------------------------------------ *)
(** ** String helpers (Python [str] methods) *)

Module PyStr.

(** [str.lower] on ASCII letters. *)
Definition lower_char (c : ascii) : ascii :=
  let n := nat_of_ascii c in
  if (65 <=? n) && (n <=? 90) then ascii_of_nat (n + 32) else c.

Fixpoint lower (s : string) : string :=
  match s with
  | EmptyString => EmptyString
  | String c r => String (lower_char c) (lower r)
  end.

(** [ch in s] *)
Fixpoint has_char (ch : ascii) (s : string) : bool :=
  match s with
  | EmptyString => false
  | String c r => if ascii_dec c ch then true else has_char ch r
  end.

(** [s.startswith(p)] *)
Fixpoint startswith (s p : string) : bool :=
  match p, s with
  | EmptyString, _ => true
  | String c p', String d s' => if ascii_dec c d then startswith s' p' else false
  | String _ _, EmptyString => false
  end.

(** [s.split(sep)] for a one-character separator. *)
Fixpoint split (sep : ascii) (s : string) : list string :=
  match s with
  | EmptyString => [EmptyString]
  | String c r =>
      let rest := split sep r in
      if ascii_dec c sep then EmptyString :: rest
      else match rest with
           | [] => [String c EmptyString]
           | w :: ws => String c w :: ws
           end
  end.

(** [s.split(sep, n)]: at most [n] splits. *)
Fixpoint split_max (sep : ascii) (n : nat) (s : string) : list string :=
  match s with
  | EmptyString => [EmptyString]
  | String c r =>
      if ascii_dec c sep then
        match n with
        | O => [s]
        | S n' => EmptyString :: split_max sep n' r
        end
      else match split_max sep n r with
           | [] => [String c EmptyString]
           | w :: ws => String c w :: ws
           end
  end.

(** [sep.join(l)] *)
Fixpoint join (sep : string) (l : list string) : string :=
  match l with
  | [] => EmptyString
  | [x] => x
  | x :: r => String.append x (String.append sep (join sep r))
  end.

(** [itertools.dropwhile] on a list of characters. *)
Fixpoint drop_while (f : ascii -> bool) (l : list ascii) : list ascii :=
  match l with
  | [] => []
  | c :: r => if f c then drop_while f r else l
  end.

(** [s.rstrip(chars)] *)
Definition rstrip (chars : list ascii) (s : string) : string :=
  string_of_list_ascii
    (rev (drop_while (fun c => existsb (fun d => if ascii_dec c d then true else false) chars)
            (rev (list_ascii_of_string s)))).

(** Characters for which Python's [str.isspace] holds, in the ASCII range. *)
Definition is_space (c : ascii) : bool :=
  let n := nat_of_ascii c in
  ((9 <=? n) && (n <=? 13)) || ((28 <=? n) && (n <=? 32)).

(** [s.strip()] *)
Definition strip (s : string) : string :=
  let l := drop_while is_space (list_ascii_of_string s) in
  string_of_list_ascii (rev (drop_while is_space (rev l))).

End PyStr.

(* ------------------------------------------------------------------ *)
(** ** [fnmatch.fnmatch]

    [fnmatch.translate] turns a pattern into a regular expression matched
    against the whole name: [*] becomes [.*], [?] becomes [.], a bracket
    expression [[...]] (with [!] for negation, a leading [\]] kept literal and
    [a-z] ranges) becomes a character class, an unclosed [[] is literal, and
    every other character is literal.  On POSIX [os.path.normcase] is the
    identity, so the comparison is case-sensitive. *)

Module FnMatch.

Inductive gtok :=
  | GStar
  | GAny
  | GClass (neg : bool) (items : list (ascii * ascii))
  | GLit (c : ascii).

(** Items of a bracket body: [a-b] is a range, any other character
    stands for itself (so a leading or trailing [-] is literal). *)
Fixpoint class_items (l : list ascii) : list (ascii * ascii) :=
  match l with
  | a :: "-"%char :: b :: r => (a, b) :: class_items r
  | a :: r => (a, a) :: class_items r
  | [] => []
  end.

(** Split at the first [c]: the characters before it and those after it. *)
Fixpoint break_at (c : ascii) (l : list ascii) : option (list ascii * list ascii) :=
  match l with
  | [] => None
  | d :: r =>
      if ascii_dec c d then Some ([], r)
      else match break_at c r with
           | Some (b, a) => Some (d :: b, a)
           | None => None
           end
  end.

(** The scan of [translate] after a [[]: skip a [!], then a [\]], then look
    for the closing [\]].  Returns the body and what follows the bracket. *)
Definition parse_class (rest : list ascii) : option (list ascii * list ascii) :=
  let '(pre1, r1) := match rest with
                     | "!"%char :: r => (["!"%char], r)
                     | _ => ([], rest)
                     end in
  let '(pre2, r2) := match r1 with
                     | "]"%char :: r => (pre1 ++ ["]"%char], r)
                     | _ => (pre1, r1)
                     end in
  match break_at "]"%char r2 with
  | Some (body, after) => Some (pre2 ++ body, after)
  | None => None
  end.

Definition class_tok (body : list ascii) : gtok :=
  match body with
  | "!"%char :: r => GClass true (class_items r)
  | _ => GClass false (class_items body)
  end.

Fixpoint tokenize_fuel (fuel : nat) (p : list ascii) : list gtok :=
  match fuel with
  | O => []
  | S f =>
      match p with
      | [] => []
      | "*"%char :: r => GStar :: tokenize_fuel f r
      | "?"%char :: r => GAny :: tokenize_fuel f r
      | "["%char :: r =>
          match parse_class r with
          | Some (body, after) => class_tok body :: tokenize_fuel f after
          | None => GLit "["%char :: tokenize_fuel f r
          end
      | c :: r => GLit c :: tokenize_fuel f r
      end
  end.

Definition translate (pat : string) : list gtok :=
  let l := list_ascii_of_string pat in tokenize_fuel (length l) l.

Definition in_range (c : ascii) (r : ascii * ascii) : bool :=
  (nat_of_ascii r.1 <=? nat_of_ascii c) && (nat_of_ascii c <=? nat_of_ascii r.2).

Definition tok_ok (t : gtok) (c : ascii) : bool :=
  match t with
  | GStar => true
  | GAny => true
  | GClass neg items => xorb neg (existsb (in_range c) items)
  | GLit d => if ascii_dec c d then true else false
  end.

(** Full match of a token list against a name ([re.fullmatch]). *)
Fixpoint gmatch (ts : list gtok) (s : list ascii) : bool :=
  match ts with
  | [] => match s with [] => true | _ => false end
  | GStar :: ts' =>
      (fix go (s : list ascii) : bool :=
         gmatch ts' s || match s with [] => false | _ :: s' => go s' end) s
  | t :: ts' =>
      match s with
      | [] => false
      | c :: s' => tok_ok t c && gmatch ts' s'
      end
  end.

Definition fnmatch (name pat : string) : bool :=
  gmatch (translate pat) (list_ascii_of_string name).

End FnMatch.

(* ------------------------------------------------------------------ *)
(** ** Pattern Matcher: [should_exclude] *)

Module Exclude.
Import PyStr FnMatch.

(** The loop [for i, part in enumerate(parts)]; [suffix] is [parts[i:]]. *)
Fixpoint component_match (suffix : list string) (pattern_lower : string) : bool :=
  match suffix with
  | [] => false
  | part :: rest =>
      fnmatch part (rstrip ["/"%char; "*"%char] pattern_lower)
      || fnmatch (join "/" (part :: rest)) pattern_lower
      || component_match rest pattern_lower
  end.

Definition pattern_match (filepath pattern : string) : bool :=
  let filepath_lower := lower filepath in
  let pattern_lower := lower pattern in
  fnmatch filepath_lower pattern_lower
  || fnmatch filepath_lower (String.append "*/" pattern_lower)
  || (has_char "/"%char filepath
      && component_match (split "/"%char filepath_lower) pattern_lower).

Definition should_exclude (filepath : string) (exclusion_patterns : list string) : bool :=
  existsb (pattern_match filepath) exclusion_patterns.

End Exclude.

Example fn1 : FnMatch.fnmatch "src/a.min.js" "*.min.js" = true. Proof. reflexivity. Qed.
Example fn2 : FnMatch.fnmatch "b.py" "[a-c].py" = true. Proof. reflexivity. Qed.
Example fn3 : FnMatch.fnmatch "b.py" "[!a-c].py" = false. Proof. reflexivity. Qed.
Example ex1 : Exclude.should_exclude "src/node_modules/foo.js" ["node_modules/*"] = true. Proof. reflexivity. Qed.
Example ex2 : Exclude.should_exclude "my_node_modules_backup/foo.js" ["node_modules/*"] = false. Proof. reflexivity. Qed.
Example ex3 : Exclude.should_exclude "vendor" ["vendor/*"] = false. Proof. reflexivity. Qed.
Example ex4 : Exclude.should_exclude "Vendor/x" ["vendor/"] = true. Proof. reflexivity. Qed.

Local Open Scope Z_scope.

(* ------------------------------------------------------------------ *)
(** ** Records shared by the pipeline *)

(** A commit record [{'hash', 'author', 'date', 'message'}]. *)
Record commit_record := {
  hash : string;
  author : string;
  date : string;
  message : string
}.

(** A churn record [{'added', 'deleted'}]. *)
Record churn_record := {
  added : Z;
  deleted : Z
}.

(* ------------------------------------------------------------------ *)
(** ** Hotspot Scorer: [calculate_hotspots] *)

Module Scorer.

(** A hotspot entry; the optional keys are [None] when absent from the dict.
    [commits] is added to the entries by [main] after scoring. *)
Record entry := {
  file : string;
  revisions : Z;
  lines : Z;
  hotspot_score : Q;
  norm_revisions : Q;
  churn_added : option Z;
  churn_deleted : option Z;
  total_churn : option Z;
  authors : option Z;
  commits : option (list commit_record)
}.

(** [max(d.values()) if d else 1] *)
Definition max_values (d : gmap string Z) : Z :=
  match map_to_list d with
  | [] => 1
  | (_, v) :: rest => fold_left (fun acc kv => Z.max acc kv.2) rest v
  end.

(** Round half to even, to an integer. *)
Definition round_half_even (x : Q) : Z :=
  let f := Qfloor x in
  match Qcompare (x - inject_Z f)%Q (1 # 2) with
  | Lt => f
  | Gt => (f + 1)%Z
  | Eq => if Z.even f then f else (f + 1)%Z
  end.

(** Python floats are IEEE 754 binary64 doubles.  A finite double is
    [m * 2^k] with [|m| < 2^53] and [k >= -1074]; it is represented here by
    its exact value in [Q].  [round_double x] is the double nearest to [x],
    ties to even: the value of a float literal, of [int / int], and of each
    float operation of the scorer. *)
Definition pow2 (k : Z) : Q := Qpower (2 # 1) k.

(** [floor(log2 a)] for [a > 0]. *)
Definition flog2 (a : Q) : Z :=
  let e0 := (Z.log2 (Qnum a) - Z.log2 (Zpos (Qden a)))%Z in
  if Qle_bool (pow2 e0) a then e0 else (e0 - 1)%Z.

(** For [a > 0]: the exponent [k] of the last place is [floor(log2 a) - 52],
    or [-1074] below the normal range. *)
Definition round_pos (a : Q) : Q :=
  let k := Z.max (flog2 a - 52) (-1074) in
  (inject_Z (round_half_even (a / pow2 k)) * pow2 k)%Q.

Definition round_double (x : Q) : Q :=
  let y := Qred x in
  match Qnum y with
  | Z0 => 0%Q
  | Zpos _ => Qred (round_pos y)
  | Zneg _ => Qred (- round_pos (- y))%Q
  end.

(** [2^-53] and [2^-1075]: the relative and the absolute rounding error. *)
Definition eps_rel : Q := Eval vm_compute in (1 # 2 ^ 53)%Q.
Definition eps_abs : Q := Eval vm_compute in (1 # 2 ^ 1075)%Q.

(** Python's true division [a / b] on integers, correctly rounded; [None]
    is the [ZeroDivisionError], or the [OverflowError] when the quotient
    rounds beyond the largest double, i.e. [|a / b| >= 2^1024 - 2^970]. *)
Definition py_div (a b : Z) : option Q :=
  if Z.eqb b 0 then None
  else
    let q := (inject_Z a / inject_Z b)%Q in
    if Qle_bool (pow2 1024 - pow2 970) q || Qle_bool (pow2 1024 - pow2 970) (- q) then None
    else Some (round_double q).

(** The literals [0.7] and [0.3], and float [*] and [+].  In the scorer the
    operands are finite and the results stay below the largest double
    ([|norm_revisions| < 2^1024], [0 <= norm_loc <= 1]), so no infinity
    arises. *)
Definition f07 : Q := round_double (7 # 10).
Definition f03 : Q := round_double (3 # 10).
Definition fmul (x y : Q) : Q := round_double (x * y).
Definition fadd (x y : Q) : Q := round_double (x + y).

(** [round(x, 4)] on a double: the exact value of [x] rounded half-even to
    4 decimals, read back as the nearest double. *)
Definition round4 (x : Q) : Q :=
  round_double (inject_Z (round_half_even (x * 10000)%Q) / 10000)%Q.

(** The body of [for filepath in common_files]: [Some None] is a skipped
    file, [None] an exception. *)
Definition score_file (revs loc : gmap string Z)
    (churn : option (gmap string churn_record)) (auths : option (gmap string Z))
    (max_revisions max_loc : Z) (filepath : string) : option (option entry) :=
  match revs !! filepath, loc !! filepath with
  | Some rev_count, Some lines =>
      if Z.ltb lines 10 then Some None
      else
        match py_div rev_count max_revisions with
        | None => None
        | Some norm_revisions =>
            match py_div lines max_loc with
            | None => None
            | Some norm_loc =>
                let hotspot_score := fadd (fmul norm_revisions f07) (fmul norm_loc f03) in
                let ch := match churn with Some m => m !! filepath | None => None end in
                Some (Some {|
                  file := filepath;
                  revisions := rev_count;
                  lines := lines;
                  hotspot_score := round4 hotspot_score;
                  norm_revisions := round4 norm_revisions;
                  churn_added := added <$> ch;
                  churn_deleted := deleted <$> ch;
                  total_churn := (fun c => added c + deleted c)%Z <$> ch;
                  authors := match auths with Some m => m !! filepath | None => None end;
                  commits := None |})
            end
        end
  | _, _ => None (* KeyError; not reached for files of the intersection *)
  end.

Fixpoint score_all revs loc churn auths max_revisions max_loc
    (common : list string) : option (list entry) :=
  match common with
  | [] => Some []
  | f :: rest =>
      match score_file revs loc churn auths max_revisions max_loc f with
      | None => None
      | Some o =>
          match score_all revs loc churn auths max_revisions max_loc rest with
          | None => None
          | Some hs => Some (option_list o ++ hs)
          end
      end
  end.

(** [hotspots.sort(key=lambda x: x['hotspot_score'], reverse=True)]: a stable
    sort, descending; entries with equal scores keep their order. *)
Fixpoint insert_desc (e : entry) (l : list entry) : list entry :=
  match l with
  | [] => [e]
  | x :: r =>
      if Qle_bool (hotspot_score e) (hotspot_score x) then x :: insert_desc e r
      else e :: l
  end.

Definition sort_desc (l : list entry) : list entry :=
  fold_left (fun acc e => insert_desc e acc) l [].

(** [common] is the iteration order of
    [set(revisions.keys()) & set(loc.keys())], which Python does not fix. *)
Definition calculate_hotspots (revs loc : gmap string Z)
    (churn : option (gmap string churn_record)) (auths : option (gmap string Z))
    (common : list string) : option (list entry) :=
  let max_revisions := max_values revs in
  let max_loc := max_values loc in
  match score_all revs loc churn auths max_revisions max_loc common with
  | None => None
  | Some hs => Some (sort_desc hs)
  end.

(** The orders in which the intersection of the key sets can be iterated. *)
Definition common_files_order (revs loc : gmap string Z) (common : list string) : Prop :=
  NoDup common /\
  (forall f, f ∈ common <-> is_Some (revs !! f) /\ is_Some (loc !! f)).

End Scorer.

Definition ex_revs : gmap string Z := <["a.py" := 10]> (<["b.py" := 2]> ∅).
Definition ex_loc : gmap string Z := <["a.py" := 50]> (<["b.py" := 20]> ∅).

Example sc1 : option_map (map (fun e => (Scorer.file e, Scorer.hotspot_score e, Scorer.norm_revisions e)))
  (Scorer.calculate_hotspots ex_revs ex_loc None None ["b.py"; "a.py"])
  = Some [("a.py", 1#1, 1#1); ("b.py", Scorer.round_double (13#50), Scorer.round_double (1#5))]%Q.
Proof. vm_compute. reflexivity. Qed.

(** The doubles of Python: [1/3], [0.7], [0.3], the smallest subnormal
    [2^-1074] (half of it rounds to even, i.e. to 0), and a tie between
    [2^53] and [2^53 + 2]. *)
Example double_values :
  Scorer.round_double (1 # 3) = (6004799503160661 # 18014398509481984)%Q
  /\ Scorer.f07 = (3152519739159347 # 4503599627370496)%Q
  /\ Scorer.f03 = (5404319552844595 # 18014398509481984)%Q
  /\ Scorer.round_double (1 # 2 ^ 1075) = 0%Q
  /\ Scorer.round_double (3 # 2 ^ 1076) = (1 # 2 ^ 1074)%Q
  /\ Scorer.round_double (inject_Z (2 ^ 53 + 1)) = inject_Z (2 ^ 53)
  /\ Scorer.round_double (inject_Z (2 ^ 53 + 3)) = inject_Z (2 ^ 53 + 4).
Proof. vm_compute. repeat split; reflexivity. Qed.

(** [round(1 / 160, 4)] is [0.0063]: the double [1/160] lies just above
    [0.00625]. *)
Example norm_revisions_double :
  option_map (map Scorer.norm_revisions)
    (Scorer.calculate_hotspots (<["a.py" := 1]> (<["b.py" := 160]> ∅)) (<["a.py" := 20]> ∅) None None ["a.py"])
  = Some [Scorer.round_double (63 # 10000)].
Proof. vm_compute. reflexivity. Qed.

(** [round(1 * 0.7 + 13/16 * 0.3, 4)] is [0.9437]: the double sum lies just
    below [0.94375]. *)
Example hotspot_score_double :
  option_map (map Scorer.hotspot_score)
    (Scorer.calculate_hotspots (<["a.py" := 1]> ∅) (<["a.py" := 13]> (<["big.py" := 16]> ∅)) None None ["a.py"])
  = Some [Scorer.round_double (9437 # 10000)].
Proof. vm_compute. reflexivity. Qed.

(* ------------------------------------------------------------------ *)
(** ** History Extractor *)

Module History.
Import PyStr Exclude.

Definition newline : ascii := "010"%char.
Definition tab : ascii := "009"%char.

(** [get_revision_frequency]: the loop over the lines of
    [git log --name-only --pretty=format:]; [output = None] is the failed
    command. *)
Definition rev_step (exclusions : list string) (file_revisions : gmap string Z)
    (raw : string) : gmap string Z :=
  let line := strip raw in
  if negb (String.eqb line "") && negb (startswith line "commit") then
    if should_exclude line exclusions then file_revisions
    else <[line := default 0 (file_revisions !! line) + 1]> file_revisions
  else file_revisions.

Definition get_revision_frequency (output : option string) (exclusions : list string)
    : gmap string Z :=
  match output with
  | None => ∅
  | Some out => fold_left (rev_step exclusions) (split newline out) ∅
  end.

(** [int(s)] on ASCII text: surrounding whitespace, an optional sign, and
    decimal digits with single underscores between digits. *)
Definition is_digit (c : ascii) : bool :=
  let n := nat_of_ascii c in ((48 <=? n) && (n <=? 57))%nat.

Fixpoint digits_val (l : list ascii) (acc : Z) (prev_digit : bool) : option Z :=
  match l with
  | [] => if prev_digit then Some acc else None
  | c :: r =>
      if is_digit c then digits_val r (acc * 10 + Z.of_nat (nat_of_ascii c - 48)) true
      else if ascii_dec c "_"%char then
        if prev_digit then digits_val r acc false else None
      else None
  end.

Definition py_int (s : string) : option Z :=
  match list_ascii_of_string (strip s) with
  | "-"%char :: r => Z.opp <$> digits_val r 0 false
  | "+"%char :: r => digits_val r 0 false
  | l => digits_val l 0 false
  end.

(** [int(x) if x != '-' else 0]; [None] is the [ValueError]. *)
Definition count_field (x : string) : option Z :=
  if String.eqb x "-" then Some 0 else py_int x.

Definition zero_churn : churn_record := {| added := 0; deleted := 0 |}.

(** One line of [git log --numstat --pretty=format:].  [file_churn] is a
    [defaultdict]: the subscript [file_churn[filename]] on the left of
    [+=] inserts the default record before the right-hand side [int(...)]
    is evaluated, and the two [+=] statements run one after the other inside
    the [try]. *)
Definition churn_step (exclusions : list string) (file_churn : gmap string churn_record)
    (line : string) : gmap string churn_record :=
  match split tab line with
  | [added_s; deleted_s; filename] =>
      if should_exclude filename exclusions then file_churn
      else
        let cur := default zero_churn (file_churn !! filename) in
        let fc1 := <[filename := cur]> file_churn in
        match count_field added_s with
        | None => fc1
        | Some a =>
            let cur2 := {| added := added cur + a; deleted := deleted cur |} in
            let fc2 := <[filename := cur2]> fc1 in
            match count_field deleted_s with
            | None => fc2
            | Some d => <[filename := {| added := added cur2; deleted := deleted cur2 + d |}]> fc2
            end
        end
  | _ => file_churn
  end.

Definition churn_lines (exclusions : list string) (lines : list string)
    : gmap string churn_record :=
  fold_left (churn_step exclusions) lines ∅.

Definition get_churn_data (output : option string) (exclusions : list string)
    : gmap string churn_record :=
  match output with
  | None => ∅
  | Some out => churn_lines exclusions (split newline out)
  end.

(** [get_commit_messages]: the loop state is [current_commit] and
    [file_commits]. *)
Record commit_state := {
  current_commit : option commit_record;
  file_commits : gmap string (list commit_record)
}.

(** [line[7:].split('|', 3)] *)
Definition commit_fields (line : string) : list string :=
  split_max "|"%char 3 (substring 7 (String.length line - 7) line).

Definition commit_step (exclusions : list string) (st : commit_state) (raw : string)
    : commit_state :=
  let line := strip raw in
  if String.eqb line "" then st
  else if startswith line "COMMIT:" then
    match commit_fields line with
    | p0 :: p1 :: p2 :: p3 :: _ =>
        {| current_commit := Some {| hash := p0; author := p1; date := p2; message := p3 |};
           file_commits := file_commits st |}
    | _ => {| current_commit := None; file_commits := file_commits st |}
    end
  else
    match current_commit st with
    | Some c =>
        if has_char "/"%char line || has_char "."%char line then
          if should_exclude line exclusions then st
          else {| current_commit := Some c;
                  file_commits := <[line := default [] (file_commits st !! line) ++ [c]]>
                                    (file_commits st) |}
        else st
    | None => st
    end.

Definition commit_lines (exclusions : list string) (lines : list string)
    : gmap string (list commit_record) :=
  file_commits (fold_left (commit_step exclusions) lines
                  {| current_commit := None; file_commits := ∅ |}).

Definition get_commit_messages (output : option string) (exclusions : list string)
    : gmap string (list commit_record) :=
  match output with
  | None => ∅
  | Some out => commit_lines exclusions (split newline out)
  end.

(** [get_author_count]: the loop state is [current_author] and
    [file_authors], a [defaultdict(set)]; a line is a file path when it
    contains ['/'] or ['.'] and an author name otherwise.  [current_author]
    is never the empty string, so its truth value is [current_author <> None]. *)
Definition author_step (exclusions : list string)
    (st : option string * gmap string (gset string)) (raw : string)
    : option string * gmap string (gset string) :=
  let line := strip raw in
  if String.eqb line "" then st
  else if has_char "/"%char line || has_char "."%char line then
    match st.1 with
    | Some a =>
        if should_exclude line exclusions then st
        else (st.1, <[line := {[a]} ∪ default ∅ (st.2 !! line)]> st.2)
    | None => st
    end
  else (Some line, st.2).

(** [{f: len(authors) for f, authors in file_authors.items()}] *)
Definition author_lines (exclusions : list string) (lines : list string) : gmap string Z :=
  (fun s : gset string => Z.of_nat (size s))
    <$> (fold_left (author_step exclusions) lines (None, ∅)).2.

Definition get_author_count (output : option string) (exclusions : list string)
    : gmap string Z :=
  match output with
  | None => ∅
  | Some out => author_lines exclusions (split newline out)
  end.

End History.

(* ------------------------------------------------------------------ *)
(** ** Size Counter: [count_lines_of_code] *)

Module Loc.
Import PyStr Exclude.

Definition cr : ascii := "013"%char.

(** Text mode with [newline=None]: [\r\n] and a lone [\r] are read as [\n]. *)
Fixpoint universal_newlines (l : list ascii) : list ascii :=
  match l with
  | [] => []
  | c :: r =>
      if ascii_dec c cr then
        match r with
        | d :: r' =>
            if ascii_dec d History.newline then History.newline :: universal_newlines r'
            else History.newline :: universal_newlines r
        | [] => [History.newline]
        end
      else c :: universal_newlines r
  end.

(** [f.readlines()] on the translated text: the lines with their ['\n'],
    the last one without it when the text does not end in a newline. *)
Fixpoint readlines (l : list ascii) : list (list ascii) :=
  match l with
  | [] => []
  | c :: r =>
      if ascii_dec c History.newline then [c] :: readlines r
      else match readlines r with
           | [] => [[c]]
           | w :: ws => (c :: w) :: ws
           end
  end.

(** [len(f.readlines())] for the text of a file. *)
Definition line_count (text : string) : Z :=
  Z.of_nat (length (readlines (universal_newlines (list_ascii_of_string text)))).

(** The body of [for filepath in output.split('\n')].  [fs filepath] is the
    text of [os.path.join(repo_path, filepath)] (decoded as UTF-8, with
    undecodable bytes dropped) when that path exists, is a regular file and
    can be read, and [None] otherwise. *)
Definition loc_step (exclusions : list string) (fs : string -> option string)
    (file_loc : gmap string Z) (raw : string) : gmap string Z :=
  let filepath := strip raw in
  if String.eqb filepath "" then file_loc
  else if should_exclude filepath exclusions then file_loc
  else match fs filepath with
       | None => file_loc
       | Some text => <[filepath := line_count text]> file_loc
       end.

(** [output] is the output of [git ls-files], [None] when it failed. *)
Definition count_lines_of_code (output : option string) (exclusions : list string)
    (fs : string -> option string) : gmap string Z :=
  match output with
  | None => ∅
  | Some out => fold_left (loc_step exclusions fs) (split History.newline out) ∅
  end.

End Loc.

(* ------------------------------------------------------------------ *)
(** ** Cache Layer: the validity check of [load_cache] *)

Module Cache.

(** JSON values as [json.load] returns them; [JNull] is Python [None]. *)
Inductive json :=
  | JNull
  | JBool (b : bool)
  | JNum (n : Z)
  | JStr (s : string)
  | JOther.

(** The cache file: missing, unreadable or undecodable, or a JSON object
    (its members in file order). *)
Inductive cache_file :=
  | CacheMissing
  | CacheBroken
  | CacheDoc (members : list (string * json)).

(** [cached.get(key)]: the last member with that key, [None] if none. *)
Definition get (members : list (string * json)) (key : string) : json :=
  match List.find (fun kv => String.eqb kv.1 key) (rev members) with
  | Some kv => kv.2
  | None => JNull
  end.

(** [current == cached] for a current value that is a [str] or [None]
    (the results of [get_git_head_hash] and [get_git_commit_count]). *)
Definition py_eq (current : option string) (cached : json) : bool :=
  match current, cached with
  | None, JNull => true
  | Some s, JStr t => String.eqb s t
  | _, _ => false
  end.

Definition to_json (v : option string) : json :=
  match v with None => JNull | Some s => JStr s end.

(** [load_cache] given the file and the current head and count. *)
Definition load_cache (f : cache_file) (current_head current_count : option string)
    : option (list (string * json)) * bool :=
  match f with
  | CacheMissing => (None, false)
  | CacheBroken => (None, false)
  | CacheDoc cached =>
      let cached_head := get cached "git_head" in
      let cached_count := get cached "commit_count" in
      if py_eq current_head cached_head && py_eq current_count cached_count
      then (Some cached, true)
      else (Some cached, false)
  end.

(** [d[key] = v] on a dict: replaced in place, or appended when new. *)
Fixpoint dict_set (key : string) (v : json) (d : list (string * json))
    : list (string * json) :=
  match d with
  | [] => [(key, v)]
  | (k, x) :: r => if String.eqb k key then (k, v) :: r else (k, x) :: dict_set key v r
  end.

(** The members of the object [save_cache] writes: [data] with the four
    metadata keys set, given the results of [get_git_head_hash],
    [get_git_commit_count], [datetime.now().isoformat()] and
    [generate_cache_key].  Once [json.dump] succeeds, the file holds these
    members and [json.load] reads them back. *)
Definition save_cache (data : list (string * json)) (head count : option string)
    (cached_at cache_key : string) : list (string * json) :=
  dict_set "cache_key" (JStr cache_key)
    (dict_set "cached_at" (JStr cached_at)
       (dict_set "commit_count" (to_json count)
          (dict_set "git_head" (to_json head) data))).

End Cache.

Definition ex_churn_bad : string :=
  String.append "5" (String History.tab (String.append "x" (String History.tab "foo.py"))).

Example ch1 : History.get_churn_data (Some ex_churn_bad) [] = <["foo.py" := {| added := 5; deleted := 0 |}]> ∅.
Proof. vm_compute. reflexivity. Qed.
Example rv1 : History.get_revision_frequency (Some (String.append "commit_utils.py" (String History.newline "a.py"))) [] = <["a.py" := 1]> ∅.
Proof. vm_compute. reflexivity. Qed.
Example cm1 : History.commit_fields "COMMIT:abc|bob" = ["abc"; "bob"].
Proof. reflexivity. Qed.
Example cm2 : History.commit_fields "COMMIT:abc|bob|2024-01-01|fix: a|b" = ["abc"; "bob"; "2024-01-01"; "fix: a|b"].
Proof. reflexivity. Qed.

(* ------------------------------------------------------------------ *)
(** ** Hierarchy Builder: [build_hierarchy] *)

Module Hierarchy.
Import PyStr Scorer.

Local Set Warnings "-register-all".

(** The fields of a file leaf dict. *)
Record leaf_info := {
  leaf_name : string;
  fullPath : string;
  size : Z;
  leaf_revisions : Z;
  leaf_hotspot_score : Q;
  leaf_norm_revisions : Q;
  leaf_authors : option Z;
  leaf_churn : option Z;
  leaf_commits : option (list commit_record)
}.

(** The nested dicts of the first phase: a directory dict
    [{'name': part, 'children': {...}}], its children keyed by segment in
    insertion order, or a file leaf dict (which has no ['children']). *)
Inductive dnode :=
  | DDir (name : string) (children : list (string * dnode))
  | DLeaf (info : leaf_info).

Definition node_name (n : dnode) : string :=
  match n with DDir nm _ => nm | DLeaf i => leaf_name i end.

(** [children[key]] if present. *)
Fixpoint assoc_get (key : string) (l : list (string * dnode)) : option dnode :=
  match l with
  | [] => None
  | (k, c) :: r => if String.eqb k key then Some c else assoc_get key r
  end.

(** [children[key] = v]: replaced in place, or appended when new. *)
Fixpoint assoc_set (key : string) (v : dnode) (l : list (string * dnode))
    : list (string * dnode) :=
  match l with
  | [] => [(key, v)]
  | (k, c) :: r => if String.eqb k key then (k, v) :: r else (k, c) :: assoc_set key v r
  end.

(** The walk over [path_parts[:-1]] starting at [current['children']]
    followed by [current['children'][filename] = leaf].  Stepping into a
    file leaf dict evaluates [current['children']] on a dict without that
    key: the [KeyError] is [None]. *)
Fixpoint insert_leaf (dirs : list string) (filename : string) (leaf : dnode)
    (children : list (string * dnode)) : option (list (string * dnode)) :=
  match dirs with
  | [] => Some (assoc_set filename leaf children)
  | part :: rest =>
      match assoc_get part children with
      | None =>
          match insert_leaf rest filename leaf [] with
          | Some sub => Some (assoc_set part (DDir part sub) children)
          | None => None
          end
      | Some (DDir nm ch) =>
          match insert_leaf rest filename leaf ch with
          | Some sub => Some (assoc_set part (DDir nm sub) children)
          | None => None
          end
      | Some (DLeaf _) => None
      end
  end.

Definition leaf_of (filename : string) (e : entry) : leaf_info := {|
  leaf_name := filename;
  fullPath := file e;
  size := lines e;
  leaf_revisions := revisions e;
  leaf_hotspot_score := hotspot_score e;
  leaf_norm_revisions := norm_revisions e;
  leaf_authors := authors e;
  leaf_churn := total_churn e;
  leaf_commits := commits e |}.

(** One iteration of [for entry in hotspots] on [root['children']]. *)
Definition add_entry (root_children : option (list (string * dnode))) (e : entry)
    : option (list (string * dnode)) :=
  match root_children with
  | None => None
  | Some ch =>
      let path_parts := split "/"%char (file e) in
      let filename := default EmptyString (last path_parts) in
      insert_leaf (removelast path_parts) filename (DLeaf (leaf_of filename e)) ch
  end.

(** The result of [convert_to_list]: a directory with its list of children,
    a directory whose empty ['children'] was deleted, or a file leaf. *)
Inductive hnode :=
  | HDir (name : string) (children : list hnode)
  | HBare (name : string)
  | HLeaf (info : leaf_info).

Fixpoint convert_to_list (n : dnode) : hnode :=
  match n with
  | DLeaf i => HLeaf i
  | DDir nm ch =>
      match map (fun kc => convert_to_list kc.2) ch with
      | [] => HBare nm
      | l => HDir nm l
      end
  end.

Definition build_hierarchy (hotspots : list entry) : option hnode :=
  match fold_left add_entry hotspots (Some []) with
  | None => None
  | Some ch => Some (convert_to_list (DDir "root" ch))
  end.

(** The file leaves below a node, each with the names of the nodes on the
    way to it, its own name last; [anc] are the names above the node. *)
Fixpoint hleaves (anc : list string) (n : hnode) : list (list string * leaf_info) :=
  match n with
  | HLeaf i => [(anc ++ [leaf_name i], i)]
  | HBare _ => []
  | HDir nm ch => concat (map (hleaves (anc ++ [nm])) ch)
  end.

(** The file leaves of a tree, with the names below the root. *)
Definition tree_leaves (root : hnode) : list (list string * leaf_info) :=
  match root with
  | HDir _ ch => concat (map (hleaves []) ch)
  | _ => []
  end.

End Hierarchy.

(* ------------------------------------------------------------------ *)
(** ** The fresh analysis of [main] (steps 1 to 5) *)

Module Pipeline.
Import Scorer Hierarchy.

(** [h['commits'] = commit_messages.get(h['file'], [])] *)
Definition with_commits (commit_messages : gmap string (list commit_record)) (h : entry)
    : entry := {|
  file := file h;
  revisions := revisions h;
  lines := lines h;
  hotspot_score := hotspot_score h;
  norm_revisions := norm_revisions h;
  churn_added := churn_added h;
  churn_deleted := churn_deleted h;
  total_churn := total_churn h;
  authors := authors h;
  commits := Some (default [] (commit_messages !! file h)) |}.

(** [for h in hotspots: ...]: every entry is updated in place. *)
Definition attach_commits (commit_messages : gmap string (list commit_record))
    (hotspots : list entry) : list entry :=
  map (with_commits commit_messages) hotspots.

Inductive outcome :=
  | Crashed                          (* an uncaught exception *)
  | NoHotspots                       (* [sys.exit(1)] *)
  | Analyzed (hotspots : list entry) (hierarchy : hnode).

(** Steps 1 to 5 given the outputs of the five git commands, the exclusion
    list, the files' texts, and the iteration order [common] of the
    intersection in [calculate_hotspots]. *)
Definition analyze (names_log numstat_log authors_log commits_log ls_files : option string)
    (exclusions : list string) (fs : string -> option string) (common : list string)
    : outcome :=
  let revisions := History.get_revision_frequency names_log exclusions in
  let loc := Loc.count_lines_of_code ls_files exclusions fs in
  let authors := History.get_author_count authors_log exclusions in
  let churn := History.get_churn_data numstat_log exclusions in
  let commit_messages := History.get_commit_messages commits_log exclusions in
  match calculate_hotspots revisions loc (Some churn) (Some authors) common with
  | None => Crashed
  | Some hs =>
      let hotspots := attach_commits commit_messages hs in
      match hotspots with
      | [] => NoHotspots
      | _ =>
          match build_hierarchy hotspots with
          | None => Crashed
          | Some hierarchy => Analyzed hotspots hierarchy
          end
      end
  end.

End Pipeline.

(* ------------------------------------------------------------------ *)
(** ** The matching rules as the spec words them (for C4) *)

Module ExcludeSpec.
Import PyStr FnMatch.

(** The pattern with a trailing ["/*"] removed. *)
Definition strip_slash_star (p : string) : string :=
  let l := list_ascii_of_string p in
  match rev l with
  | "*"%char :: "/"%char :: r => string_of_list_ascii (rev r)
  | _ => p
  end.

(** Rule 3 at every segment split point, for every path. *)
Fixpoint split_point_rule (suffix : list string) (pattern_lower : string) : bool :=
  match suffix with
  | [] => false
  | part :: rest =>
      fnmatch part (strip_slash_star pattern_lower)
      || fnmatch (join "/" (part :: rest)) pattern_lower
      || split_point_rule rest pattern_lower
  end.

Definition is_excluded (path : string) (patterns : list string) : bool :=
  existsb (fun p =>
    let pl := lower p in let fl := lower path in
    fnmatch fl pl || fnmatch fl (String.append "*/" pl)
    || split_point_rule (split "/"%char fl) pl) patterns.

End ExcludeSpec.

(* ------------------------------------------------------------------ *)
(** * Theorems *)

(** ** Pattern Matcher *)

Section ExcludeProofs.
Import PyStr FnMatch Exclude.

Lemma component_match_spec (suffix : list string) (pl : string) :
  component_match suffix pl = true <->
  exists i part, suffix !! i = Some part /\
    (fnmatch part (rstrip ["/"%char; "*"%char] pl) = true
     \/ fnmatch (join "/" (drop i suffix)) pl = true).
Proof.
  induction suffix as [|part rest IH]; simpl.
  - split; [discriminate | intros (i & p & Hl & _); done].
  - rewrite !orb_true_iff, IH. split.
    + intros [[H|H]|(i & p & Hl & H)].
      * exists 0%nat, part. auto.
      * exists 0%nat, part. auto.
      * exists (S i), p. auto.
    + intros ([|i] & p & Hl & H); simpl in Hl.
      * injection Hl as <-. simpl in H. tauto.
      * right. exists i, p. auto.
Qed.

(** C4 (amended): a path is excluded iff some pattern, compared in lower
    case, matches the whole path, or the whole path with an implicit ["*/"]
    prefix, or, only when the path contains a ['/'], at some segment the
    segment matches the pattern with all trailing ['/'] and ['*'] characters
    removed or the suffix of the path from that segment matches the pattern.
    The three node_modules examples of the spec hold. *)
Theorem should_exclude_rules (path : string) (patterns : list string) :
  (should_exclude path patterns = true <->
   exists p, p ∈ patterns /\
     (fnmatch (lower path) (lower p) = true
      \/ fnmatch (lower path) (String.append "*/" (lower p)) = true
      \/ (has_char "/"%char path = true /\
          exists i part, split "/"%char (lower path) !! i = Some part /\
            (fnmatch part (rstrip ["/"%char; "*"%char] (lower p)) = true
             \/ fnmatch (join "/" (drop i (split "/"%char (lower path)))) (lower p) = true))))
  /\ should_exclude "node_modules/foo.js" ["node_modules/*"] = true
  /\ should_exclude "src/node_modules/foo.js" ["node_modules/*"] = true
  /\ should_exclude "my_node_modules_backup/foo.js" ["node_modules/*"] = false.
Proof.
  split; [| split; [reflexivity | split; reflexivity]].
  unfold should_exclude. rewrite existsb_exists.
  split.
  - intros (p & Hin & H). exists p. split; [by apply list_elem_of_In |].
    unfold pattern_match in H. rewrite !orb_true_iff, andb_true_iff in H.
    rewrite component_match_spec in H. tauto.
  - intros (p & Hin & H). exists p. split; [by apply list_elem_of_In |].
    unfold pattern_match. rewrite !orb_true_iff, andb_true_iff.
    rewrite component_match_spec. tauto.
Qed.

End ExcludeProofs.

(** C4 (counterexample): the path ["vendor"] has a single segment, which
    matches ["vendor/*"] with its trailing ["/*"] stripped, so the rules as
    stated exclude it; [should_exclude] applies the segment rule only to
    paths that contain a ['/'] and keeps it. *)
Lemma should_exclude_vendor_cex :
  Exclude.should_exclude "vendor" ["vendor/*"] = false
  /\ ExcludeSpec.is_excluded "vendor" ["vendor/*"] = true.
Proof. split; reflexivity. Qed.

(** ** Cache Layer *)

Section CacheProofs.
Import Cache.

Lemma py_eq_spec (cur : option string) (v : json) :
  py_eq cur v = true <-> v = to_json cur.
Proof.
  destruct cur as [s|], v; simpl; split; try discriminate; try done;
    try (intros H; by inversion H).
  - intros H. apply String.eqb_eq in H. by subst.
  - intros H. inversion H; subst. apply String.eqb_refl.
Qed.

Definition ex_cache : cache_file :=
  CacheDoc [("hotspots", JOther); ("git_head", JStr "X"); ("commit_count", JStr "5")].

(** C9: for a stored result, [load_cache] reports it valid iff the stored
    head equals the current head and the stored commit count equals the
    current count; a mismatch in either reports it invalid.  On the spec's
    example, [(X, 5)] against [(X, 5)] is valid and against [(Y, 5)] is not. *)
Theorem load_cache_valid_iff (members : list (string * json))
    (current_head current_count : option string) :
  ((load_cache (CacheDoc members) current_head current_count).2 = true <->
   get members "git_head" = to_json current_head
   /\ get members "commit_count" = to_json current_count)
  /\ (load_cache (CacheDoc members) current_head current_count).1 = Some members
  /\ (load_cache ex_cache (Some "X") (Some "5")).2 = true
  /\ (load_cache ex_cache (Some "Y") (Some "5")).2 = false
  /\ (load_cache ex_cache (Some "X") (Some "6")).2 = false.
Proof.
  split; [| split; [| split; [reflexivity | split; reflexivity]]].
  - simpl. rewrite <- !py_eq_spec.
    destruct (py_eq current_head _), (py_eq current_count _); simpl; intuition congruence.
  - simpl. by destruct (_ && _).
Qed.

End CacheProofs.

(** ** History Extractor *)

Section HistoryProofs.
Import PyStr Exclude History.

Lemma rev_step_fresh (exclusions : list string) (k : string) (acc : gmap string Z) (raw : string) :
  startswith k "commit" = true -> acc !! k = None ->
  rev_step exclusions acc raw !! k = None.
Proof.
  intros Hk Hacc. unfold rev_step.
  destruct (negb _ && negb _) eqn:Hl; [| done].
  apply andb_true_iff in Hl as [_ Hs]. apply negb_true_iff in Hs.
  destruct (should_exclude _ _); [done |].
  rewrite lookup_insert_ne; [done |].
  intros Heq. rewrite Heq, Hk in Hs. discriminate.
Qed.

(** C10: a key that starts with ["commit"] (such as ["commit_utils.py"]) is
    never in the revision map, whatever the log output and exclusions. *)
Theorem revision_frequency_skips_commit (output : option string) (exclusions : list string)
    (k : string) :
  startswith k "commit" = true ->
  get_revision_frequency output exclusions !! k = None.
Proof.
  intros Hk. destruct output as [out|]; simpl; [| done].
  assert (Hgen : forall (l : list string) (acc : gmap string Z), acc !! k = None ->
            fold_left (rev_step exclusions) l acc !! k = None).
  { induction l as [|x l IH]; intros acc Hacc; simpl; [done |].
    apply IH. by apply rev_step_fresh. }
  apply Hgen. apply lookup_empty.
Qed.

Definition ex_log : string :=
  String.append "commit_utils.py" (String newline (String.append "a.py"
    (String newline "commit_utils.py"))).

Lemma revision_frequency_skips_commit_witness :
  startswith "commit_utils.py" "commit" = true
  /\ get_revision_frequency (Some ex_log) [] !! "commit_utils.py" = None
  /\ get_revision_frequency (Some ex_log) [] !! "a.py" = Some 1.
Proof.
  split; [reflexivity |]. split.
  - apply revision_frequency_skips_commit. reflexivity.
  - vm_compute. reflexivity.
Defined.

(** A well-formed commit marker line: it starts with ["COMMIT:"] and its
    payload has at least four ['|']-separated fields. *)
Definition well_formed_marker (raw : string) : Prop :=
  startswith (strip raw) "COMMIT:" = true /\ (4 <= length (commit_fields (strip raw)))%nat.

Lemma commit_step_none (exclusions : list string) (fc : gmap string (list commit_record))
    (raw : string) :
  ~ well_formed_marker raw ->
  commit_step exclusions {| current_commit := None; file_commits := fc |} raw
  = {| current_commit := None; file_commits := fc |}.
Proof.
  unfold well_formed_marker, commit_step. cbv zeta. intros Hwf.
  destruct (String.eqb _ _); [done |].
  destruct (startswith _ _) eqn:Hs; [| done].
  destruct (commit_fields (strip raw)) as [|p0 [|p1 [|p2 [|p3 r]]]] eqn:Hf; try done.
  exfalso. apply Hwf. split; [done | simpl; lia].
Qed.

Lemma commit_steps_none (exclusions : list string) (fc : gmap string (list commit_record))
    (mid : list string) :
  (forall l, l ∈ mid -> ~ well_formed_marker l) ->
  fold_left (commit_step exclusions) mid {| current_commit := None; file_commits := fc |}
  = {| current_commit := None; file_commits := fc |}.
Proof.
  induction mid as [|l mid IH]; intros Hmid; simpl; [done |].
  rewrite commit_step_none; [| apply Hmid; left].
  apply IH. intros l' Hl'. apply Hmid. by right.
Qed.

(** C7: a ["COMMIT:"] line whose payload has fewer than four
    ['|']-separated fields resets the current commit to none, so that the
    lines after it, up to the next well-formed marker, leave the collected
    commit lists unchanged: the whole log parses as if those lines were
    absent.  The parse is a total function (nothing is raised). *)
Theorem malformed_marker_skipped (exclusions : list string) (st : commit_state)
    (m : string) (mid pre post : list string) :
  startswith (strip m) "COMMIT:" = true ->
  (length (commit_fields (strip m)) < 4)%nat ->
  (forall l, l ∈ mid -> ~ well_formed_marker l) ->
  fold_left (commit_step exclusions) (m :: mid) st
    = {| current_commit := None; file_commits := file_commits st |}
  /\ commit_lines exclusions (pre ++ m :: mid ++ post)
     = commit_lines exclusions (pre ++ m :: post).
Proof.
  intros Hm Hlen Hmid.
  assert (Hstep : forall st', commit_step exclusions st' m
                   = {| current_commit := None; file_commits := file_commits st' |}).
  { intros st'. unfold commit_step. cbv zeta.
    destruct (String.eqb (strip m) "") eqn:He.
    - apply String.eqb_eq in He. rewrite He in Hm. discriminate.
    - rewrite Hm.
      destruct (commit_fields (strip m)) as [|p0 [|p1 [|p2 [|p3 r]]]]; simpl in Hlen;
        try done; lia. }
  split.
  - simpl. rewrite Hstep. by apply commit_steps_none.
  - unfold commit_lines. rewrite !fold_left_app. simpl. rewrite !Hstep.
    rewrite fold_left_app, commit_steps_none by done. reflexivity.
Qed.

Lemma malformed_marker_skipped_witness :
  startswith (strip "COMMIT:abc1234|alice") "COMMIT:" = true
  /\ (length (commit_fields (strip "COMMIT:abc1234|alice")) < 4)%nat
  /\ commit_lines [] ["COMMIT:abc1234|alice"; "src/a.py"; "lib/b.py"; "COMMIT:def|bob|2024-01-02|ok"; "src/a.py"]
     = commit_lines [] ["COMMIT:abc1234|alice"; "COMMIT:def|bob|2024-01-02|ok"; "src/a.py"].
Proof.
  split; [reflexivity |]. split; [vm_compute; lia |].
  apply (malformed_marker_skipped [] {| current_commit := None; file_commits := ∅ |}
           "COMMIT:abc1234|alice" ["src/a.py"; "lib/b.py"] [] ["COMMIT:def|bob|2024-01-02|ok"; "src/a.py"]).
  - reflexivity.
  - vm_compute. lia.
  - intros l Hl. unfold well_formed_marker.
    repeat (apply elem_of_cons in Hl as [->|Hl]; [vm_compute; intros [H _]; discriminate |]).
    by apply elem_of_nil in Hl.
Defined.

Definition tsv (a d f : string) : string :=
  String.append a (String tab (String.append d (String tab f))).

Definition lines_out (l : list string) : string := join (String newline EmptyString) l.

(** C6 (code bug): on the churn output ["3 4 foo.py"] followed by
    ["5 x foo.py"] (tab-separated), the second line's added count 5 is
    accumulated before its non-numeric deleted field raises, so [foo.py]
    ends with 8 added lines instead of 3; a line whose added field is
    non-numeric still creates a zero record for a new file.  The ['-']
    fields of a binary file count as zero. *)
Theorem churn_bad_line_not_skipped :
  get_churn_data (Some (lines_out [tsv "3" "4" "foo.py"; tsv "5" "x" "foo.py"])) []
    = <["foo.py" := {| added := 8; deleted := 4 |}]> ∅
  /\ get_churn_data (Some (lines_out [tsv "3" "4" "foo.py"])) []
    = <["foo.py" := {| added := 3; deleted := 4 |}]> ∅
  /\ get_churn_data (Some (tsv "x" "3" "bar.py")) [] = <["bar.py" := zero_churn]> ∅
  /\ get_churn_data (Some "") [] = ∅
  /\ get_churn_data (Some (tsv "-" "-" "logo.png")) [] = <["logo.png" := zero_churn]> ∅.
Proof. vm_compute. repeat split. Qed.

End HistoryProofs.

(** ** Hotspot Scorer *)

Section ScorerLemmas.
Import Scorer.

(** [max_values] is the maximum of the values (1 for an empty map). *)
Lemma fold_max_bounds (rest : list (string * Z)) (a : Z) :
  let r := fold_left (fun acc kv => Z.max acc kv.2) rest a in
  a <= r /\ (forall kv, kv ∈ rest -> kv.2 <= r) /\ (r = a \/ exists kv, kv ∈ rest /\ r = kv.2).
Proof.
  revert a. induction rest as [|kv rest IH]; intros a; simpl.
  - split; [lia | split; [intros kv Hkv; by apply elem_of_nil in Hkv | by left]].
  - destruct (IH (Z.max a kv.2)) as (H1 & H2 & H3). split; [lia |]. split.
    + intros kv' Hkv'. apply elem_of_cons in Hkv' as [->|Hkv']; [lia | auto].
    + destruct H3 as [H3|(kv' & Hin & H3)].
      * destruct (Z.max_spec a kv.2) as [[_ Hm]|[_ Hm]]; rewrite H3, Hm; [right; exists kv; split; [left | done] | by left].
      * right. exists kv'. split; [by right | done].
Qed.

Lemma max_values_ge (d : gmap string Z) (k : string) (v : Z) :
  d !! k = Some v -> v <= max_values d.
Proof.
  intros Hk. apply elem_of_map_to_list in Hk. unfold max_values.
  destruct (map_to_list d) as [|[k0 v0] rest]; [by apply elem_of_nil in Hk |].
  destruct (fold_max_bounds rest v0) as (H1 & H2 & _).
  apply elem_of_cons in Hk as [Hk|Hk]; [injection Hk as -> ->; exact H1 | exact (H2 _ Hk)].
Qed.

Lemma max_values_attained (d : gmap string Z) :
  d <> ∅ -> exists k, d !! k = Some (max_values d).
Proof.
  intros Hne. unfold max_values.
  destruct (map_to_list d) as [|[k0 v0] rest] eqn:Hl.
  - by apply map_to_list_empty_iff in Hl.
  - destruct (fold_max_bounds rest v0) as (_ & _ & [H3|([k v] & Hin & H3)]).
    + exists k0. rewrite H3. apply elem_of_map_to_list. rewrite Hl. left.
    + exists k. rewrite H3. apply elem_of_map_to_list. rewrite Hl. by right.
Qed.

Lemma max_values_empty : max_values ∅ = 1.
Proof. unfold max_values. by rewrite map_to_list_empty. Qed.

(** Rounding respects [Qeq]. *)
Lemma round_half_even_compat (x y : Q) : (x == y)%Q -> round_half_even x = round_half_even y.
Proof.
  intros H. unfold round_half_even.
  rewrite (Qfloor_comp x y H).
  assert (Hc : Qcompare (x - inject_Z (Qfloor y)) (1 # 2) = Qcompare (y - inject_Z (Qfloor y)) (1 # 2)).
  { apply Qcompare_comp; [rewrite H |]; reflexivity. }
  by rewrite Hc.
Qed.

(** The rounding error of [round_double]. *)
Lemma round_half_even_close (x : Q) :
  (x - (1 # 2) <= inject_Z (round_half_even x) <= x + (1 # 2))%Q.
Proof.
  unfold round_half_even.
  pose proof (Qfloor_le x) as H0. pose proof (Qlt_floor x) as H1.
  set (f := Qfloor x) in *.
  rewrite inject_Z_plus in H1. change (inject_Z 1) with 1%Q in H1.
  destruct (Qcompare _ _) eqn:Hc.
  - apply Qeq_alt in Hc.
    destruct (Z.even f); [| rewrite inject_Z_plus; change (inject_Z 1) with 1%Q]; lra.
  - apply Qlt_alt in Hc. lra.
  - apply Qgt_alt in Hc. rewrite inject_Z_plus. change (inject_Z 1) with 1%Q. lra.
Qed.

Lemma pow2_pos (k : Z) : (0 < pow2 k)%Q.
Proof. apply Qpower_0_lt. reflexivity. Qed.

Lemma Qdiv_Z_le (A B C D : Z) : 0 < B -> 0 < D -> A * D <= C * B ->
  (inject_Z A / inject_Z B <= inject_Z C / inject_Z D)%Q.
Proof.
  intros HB HD H. destruct B as [|b|b], D as [|d|d]; try lia.
  unfold Qle, Qdiv, Qmult, Qinv, inject_Z. simpl. lia.
Qed.

Lemma flog2_spec (a : Q) : 0 < Qnum a -> (pow2 (flog2 a) <= a)%Q.
Proof.
  intros Ha. unfold flog2. cbv zeta.
  destruct (Qle_bool _ a) eqn:Hb; [apply Qle_bool_iff; exact Hb |].
  destruct a as [n d]; cbn [Qnum Qden] in *.
  destruct (Z.log2_spec n Ha) as [Hn _].
  destruct (Z.log2_spec (Zpos d) ltac:(lia)) as [_ Hd].
  pose proof (Z.log2_nonneg n). pose proof (Z.log2_nonneg (Zpos d)).
  set (ln := Z.log2 n) in *. set (ld := Z.log2 (Zpos d)) in *.
  rewrite Z.pow_succ_r in Hd by lia.
  replace (ln - ld - 1) with (ln - (ld + 1)) by lia.
  unfold pow2. rewrite Qpower_minus by (compute; discriminate).
  change (2 # 1)%Q with (inject_Z 2).
  rewrite <- !Zpower_Qpower by lia.
  rewrite Qmake_Qdiv. rewrite Z.pow_add_r by lia.
  assert (0 < 2 ^ ln) by (apply Z.pow_pos_nonneg; lia).
  assert (0 < 2 ^ ld) by (apply Z.pow_pos_nonneg; lia).
  apply Qdiv_Z_le; [lia | lia | nia].
Qed.

(** Rounding to the nearest double, for [a > 0], makes a relative error of
    at most [2^-53], or an absolute one of at most [2^-1075] below the
    normal range. *)
Lemma round_pos_error (a : Q) : 0 < Qnum a ->
  (0 <= round_pos a)%Q
  /\ (round_pos a - a <= a * eps_rel + eps_abs)%Q
  /\ (a - round_pos a <= a * eps_rel + eps_abs)%Q.
Proof.
  intros Ha. unfold round_pos.
  assert (Ha0 : (0 < a)%Q) by (unfold Qlt; simpl; lia).
  set (k := Z.max (flog2 a - 52) (-1074)).
  pose proof (pow2_pos k) as HP. set (P := pow2 k) in *.
  pose proof (round_half_even_close (a / P)) as [Hm1 Hm2].
  set (m := round_half_even (a / P)) in *.
  assert (HaP : (0 < a / P)%Q) by (apply Qlt_shift_div_l; lra).
  assert (Hm0 : 0 <= m).
  { destruct (Z.le_gt_cases 0 m) as [|Hlt]; [done |].
    assert (Hq : (inject_Z m <= -1)%Q) by (change (-1)%Q with (inject_Z (-1)); rewrite <- Zle_Qle; lia).
    lra. }
  assert (Hhalf : (P * (1 # 2) <= a * eps_rel + eps_abs)%Q).
  { destruct (Z.max_spec (flog2 a - 52) (-1074)) as [[_ Hk]|[_ Hk]]; subst P; fold k in Hk; rewrite Hk.
    - assert (Hv : (pow2 (-1074) == 1 # 2 ^ 1074)%Q) by reflexivity.
      rewrite Hv. assert (0 <= a * eps_rel)%Q by (apply Qmult_le_0_compat; [lra | done]).
      unfold Qle in *; simpl in *; lia.
    - replace (flog2 a - 52) with (flog2 a + (-52)) by lia.
      unfold pow2. rewrite Qpower_plus by (compute; discriminate).
      pose proof (flog2_spec a Ha) as He. unfold pow2 in He.
      assert (Hv : ((2 # 1) ^ (-52) * (1 # 2) == eps_rel)%Q) by reflexivity.
      rewrite <- Qmult_assoc, Hv.
      assert (((2 # 1) ^ flog2 a * eps_rel <= a * eps_rel)%Q)
        by (apply Qmult_le_compat_r; [exact He | done]).
      assert (0 <= eps_abs)%Q by done. lra. }
  assert (Hid : (a / P * P == a)%Q) by (field; lra).
  split; [| split].
  - apply Qmult_le_0_compat; [| lra].
    change 0%Q with (inject_Z 0). by rewrite <- Zle_Qle.
  - assert (H1 : (inject_Z m * P <= (a / P + (1 # 2)) * P)%Q)
      by (apply Qmult_le_compat_r; [exact Hm2 | lra]).
    assert (H2 : ((a / P + (1 # 2)) * P == a + P * (1 # 2))%Q) by (field; lra).
    rewrite H2 in H1. lra.
  - assert (H1 : ((a / P - (1 # 2)) * P <= inject_Z m * P)%Q)
      by (apply Qmult_le_compat_r; [exact Hm1 | lra]).
    assert (H2 : ((a / P - (1 # 2)) * P == a - P * (1 # 2))%Q) by (field; lra).
    rewrite H2 in H1. lra.
Qed.

Lemma round_double_compat (x y : Q) : (x == y)%Q -> round_double x = round_double y.
Proof. intros H. unfold round_double. by rewrite (Qred_complete x y H). Qed.

(** The same bounds for [round_double] on [x >= 0]. *)
Lemma round_double_error (x : Q) : (0 <= x)%Q ->
  (0 <= round_double x)%Q
  /\ (round_double x <= x + x * eps_rel + eps_abs)%Q
  /\ (x - x * eps_rel - eps_abs <= round_double x)%Q.
Proof.
  intros Hx. unfold round_double.
  pose proof (Qred_correct x) as Hy. set (y := Qred x) in *.
  destruct (Qnum y) as [|p|p] eqn:Hn.
  - assert (Hy0 : (y == 0)%Q) by (unfold Qeq; rewrite Hn; reflexivity).
    assert (0 <= eps_abs)%Q by done. split; [done |]. rewrite <- Hy, Hy0. split; lra.
  - rewrite Qred_correct.
    destruct (round_pos_error y ltac:(rewrite Hn; lia)) as (H0 & H1 & H2).
    set (r := round_pos y) in *. clearbody r y. rewrite Hy in H1, H2. repeat split; lra.
  - exfalso. rewrite <- Hy in Hx. unfold Qle in Hx. simpl in Hx. rewrite Hn in Hx. lia.
Qed.

(** [round(x, 4)], the literals and the scorer's divisions. *)
Lemma f07_val : f07 = 3152519739159347 # 4503599627370496.
Proof. vm_compute. reflexivity. Qed.

Lemma f03_val : f03 = 5404319552844595 # 18014398509481984.
Proof. vm_compute. reflexivity. Qed.

Lemma round_double_one (x : Q) : (x == 1)%Q -> round_double x = 1%Q.
Proof. intros H. rewrite (round_double_compat x 1 H). vm_compute. reflexivity. Qed.

Lemma round4_one (x : Q) : (x == 1)%Q -> round4 x = 1%Q.
Proof.
  intros H. unfold round4.
  rewrite (round_half_even_compat (x * 10000) 10000) by (rewrite H; reflexivity).
  vm_compute. reflexivity.
Qed.

Lemma Q_of_Z_le (z : Z) (c : Z) : (inject_Z z <= inject_Z c + (9 # 10))%Q -> z <= c.
Proof.
  intros H. destruct (Z.le_gt_cases z c) as [|Hlt]; [done |].
  assert (Hq : (inject_Z (c + 1) <= inject_Z z)%Q) by (rewrite <- Zle_Qle; lia).
  rewrite inject_Z_plus in Hq. change (inject_Z 1) with 1%Q in Hq. lra.
Qed.

(** [round(x, 4)] of a value at most slightly above 1 is in [[0, 1]]. *)
Lemma round4_unit (x : Q) : (0 <= x <= 1 + (1 # 100000))%Q -> (0 <= round4 x <= 1)%Q.
Proof.
  intros Hx. unfold round4.
  destruct (round_half_even_close (x * 10000)) as [H1 H2].
  set (k := round_half_even (x * 10000)) in *.
  assert (Hk0 : 0 <= k).
  { apply Z.opp_le_mono, (Q_of_Z_le (- k) 0). rewrite inject_Z_opp. change (inject_Z 0) with 0%Q. lra. }
  assert (Hk1 : k <= 10000) by (apply Q_of_Z_le; change (inject_Z 10000) with (10000%Q); lra).
  destruct (Z.eq_dec k 10000) as [->|Hne].
  - vm_compute. split; discriminate.
  - assert (Hq0 : (0 <= inject_Z k)%Q) by (change 0%Q with (inject_Z 0); rewrite <- Zle_Qle; lia).
    assert (Hq1 : (inject_Z k <= 9999)%Q) by (change 9999%Q with (inject_Z 9999); rewrite <- Zle_Qle; lia).
    assert (Hy : (0 <= inject_Z k / 10000 <= 9999 # 10000)%Q).
    { split; [apply Qle_shift_div_l; [reflexivity | lra] | apply Qle_shift_div_r; [reflexivity | lra]]. }
    destruct (round_double_error (inject_Z k / 10000) (proj1 Hy)) as (E0 & E1 & _).
    set (y := (inject_Z k / 10000)%Q) in *. clearbody y.
    unfold eps_rel, eps_abs in *. split; [exact E0 |].
    assert (0 <= y * (1 # 9007199254740992) <= (1 # 9007199254740992))%Q by (split; nra).
    lra.
Qed.

Lemma py_div_eq (a m : Z) (q : Q) :
  py_div a m = Some q -> m <> 0 /\ q = round_double (inject_Z a / inject_Z m).
Proof.
  unfold py_div. destruct (Z.eqb_spec m 0); [discriminate |].
  destruct (_ || _); [discriminate |]. intros H. by injection H as <-.
Qed.

Lemma Zdiv_unit (a m : Z) : 0 <= a -> a <= m -> m <> 0 -> (0 <= inject_Z a / inject_Z m <= 1)%Q.
Proof.
  intros Ha Hm Hne.
  assert (Hpos : (0 < inject_Z m)%Q) by (change 0%Q with (inject_Z 0); rewrite <- Zlt_Qlt; lia).
  split.
  - apply Qle_shift_div_l; [done |]. rewrite Qmult_0_l. change 0%Q with (inject_Z 0). rewrite <- Zle_Qle. lia.
  - apply Qle_shift_div_r; [done |]. rewrite Qmult_1_l, <- Zle_Qle. lia.
Qed.

(** A count divided by a maximum at least as large never overflows. *)
Lemma py_div_total (a m : Z) : 0 <= a -> a <= m -> m <> 0 -> exists q, py_div a m = Some q.
Proof.
  intros Ha Hm Hne. unfold py_div. destruct (Z.eqb_spec m 0) as [|_]; [done |]. cbv zeta.
  destruct (Zdiv_unit a m Ha Hm Hne) as [H0 H1].
  set (x := (inject_Z a / inject_Z m)%Q) in *.
  assert (Hthr : (2 <= pow2 1024 - pow2 970)%Q) by (unfold Qle; vm_compute; discriminate).
  destruct (Qle_bool _ x) eqn:E1; [apply Qle_bool_iff in E1; lra |].
  destruct (Qle_bool _ (- x)) eqn:E2; [apply Qle_bool_iff in E2; lra |].
  by eexists.
Qed.

Lemma py_div_unit (a m : Z) (q : Q) :
  0 <= a -> a <= m -> py_div a m = Some q -> (0 <= q <= 1 + 2 * eps_rel)%Q.
Proof.
  intros Ha Hm Hq. apply py_div_eq in Hq as [Hne ->].
  destruct (Zdiv_unit a m Ha Hm Hne) as [H0 H1].
  destruct (round_double_error _ H0) as (E0 & E1 & _).
  set (x := (inject_Z a / inject_Z m)%Q) in *. clearbody x.
  unfold eps_rel, eps_abs in *. lra.
Qed.

(** [norm_revisions * 0.7 + norm_loc * 0.3] in doubles, for normalized
    values in [[0, 1]] up to rounding, stays below [1 + 10^-5]. *)
Lemma score_sum_unit (nr nl : Q) :
  (0 <= nr <= 1 + 2 * eps_rel)%Q -> (0 <= nl <= 1 + 2 * eps_rel)%Q ->
  (0 <= fadd (fmul nr f07) (fmul nl f03) <= 1 + (1 # 100000))%Q.
Proof.
  intros Hr Hl. unfold fadd, fmul. rewrite f07_val, f03_val.
  unfold eps_rel in Hr, Hl.
  destruct (round_double_error (nr * (3152519739159347 # 4503599627370496))) as (A0 & A1 & _); [nra |].
  destruct (round_double_error (nl * (5404319552844595 # 18014398509481984))) as (B0 & B1 & _); [nra |].
  set (p1 := round_double (nr * _)) in *. set (p2 := round_double (nl * _)) in *.
  destruct (round_double_error (p1 + p2)) as (C0 & C1 & _); [lra |].
  set (s := round_double (p1 + p2)) in *. clearbody p1 p2 s.
  unfold eps_rel, eps_abs in *. split; lra.
Qed.

(** What a scored file's entry holds. *)
Lemma score_file_Some revs loc churn auths mr ml (f : string) (e : entry) :
  score_file revs loc churn auths mr ml f = Some (Some e) ->
  exists rc ln nr nl,
    revs !! f = Some rc /\ loc !! f = Some ln /\ 10 <= ln /\
    py_div rc mr = Some nr /\ py_div ln ml = Some nl /\
    file e = f /\ revisions e = rc /\ lines e = ln /\
    hotspot_score e = round4 (fadd (fmul nr f07) (fmul nl f03)) /\
    norm_revisions e = round4 nr.
Proof.
  unfold score_file.
  destruct (revs !! f) as [rc|], (loc !! f) as [ln|]; try discriminate.
  destruct (Z.ltb_spec ln 10) as [Hlt|Hge]; [discriminate |].
  destruct (py_div rc mr) as [nr|] eqn:Hnr; [| discriminate].
  destruct (py_div ln ml) as [nl|] eqn:Hnl; [| discriminate].
  intros Hs. injection Hs as <-. exists rc, ln, nr, nl. simpl. repeat split; auto; lia.
Qed.

Lemma score_file_skip revs loc churn auths mr ml (f : string) :
  score_file revs loc churn auths mr ml f = Some None ->
  exists ln, loc !! f = Some ln /\ ln < 10.
Proof.
  unfold score_file.
  destruct (revs !! f) as [rc|], (loc !! f) as [ln|]; try discriminate.
  destruct (Z.ltb_spec ln 10) as [Hlt|Hge]; [intros _; by exists ln |].
  destruct (py_div rc mr); [| discriminate].
  destruct (py_div ln ml); discriminate.
Qed.

Lemma score_all_spec revs loc churn auths mr ml (common : list string) (hs : list entry) :
  score_all revs loc churn auths mr ml common = Some hs ->
  (forall e, e ∈ hs <-> exists f, f ∈ common /\ score_file revs loc churn auths mr ml f = Some (Some e))
  /\ (forall f, f ∈ common -> exists o, score_file revs loc churn auths mr ml f = Some o)
  /\ (NoDup common -> NoDup (map file hs)).
Proof.
  revert hs. induction common as [|f rest IH]; intros hs H; simpl in H.
  - injection H as <-. split; [| split].
    + intros e. split; [intros He; by apply elem_of_nil in He |].
      intros (f & Hf & _). by apply elem_of_nil in Hf.
    + intros f Hf. by apply elem_of_nil in Hf.
    + intros _. constructor.
  - destruct (score_file _ _ _ _ _ _ f) as [o|] eqn:Hs; [| discriminate].
    destruct (score_all _ _ _ _ _ _ rest) as [hs'|] eqn:Hr; [| discriminate].
    injection H as <-. destruct (IH hs' eq_refl) as (IH1 & IH2 & IH3).
    split; [| split].
    + intros e. rewrite elem_of_app, IH1. split.
      * intros [He|(f' & Hf' & Hs')].
        -- destruct o as [e'|]; simpl in He; [| by apply elem_of_nil in He].
           apply elem_of_cons in He as [->|He]; [| by apply elem_of_nil in He].
           exists f. split; [left | done].
        -- exists f'. split; [by right | done].
      * intros (f' & Hf' & Hs'). apply elem_of_cons in Hf' as [->|Hf'].
        -- left. rewrite Hs in Hs'. injection Hs' as ->. simpl. left.
        -- right. exists f'. auto.
    + intros f' Hf'. apply elem_of_cons in Hf' as [->|Hf']; [by exists o | auto].
    + intros Hnd. apply NoDup_cons in Hnd as [Hnot Hnd].
      rewrite map_app. destruct o as [e|]; simpl; [| auto].
      constructor; [| auto].
      intros Hin. apply list_elem_of_fmap in Hin as (e' & He' & Hin).
      apply IH1 in Hin as (f' & Hf' & Hs').
      destruct (score_file_Some _ _ _ _ _ _ _ _ Hs) as (? & ? & ? & ? & _ & _ & _ & _ & _ & Hfe & _).
      destruct (score_file_Some _ _ _ _ _ _ _ _ Hs') as (? & ? & ? & ? & _ & _ & _ & _ & _ & Hfe' & _).
      apply Hnot. rewrite <- Hfe, He', Hfe'. done.
Qed.

(** The stable descending insertion sort. *)
Definition score_ge (a b : entry) : Prop := (hotspot_score b <= hotspot_score a)%Q.

Lemma insert_desc_perm (e : entry) (l : list entry) : insert_desc e l ≡ₚ e :: l.
Proof.
  induction l as [|x r IH]; simpl; [done |].
  destruct (Qle_bool _ _); [| done].
  rewrite IH. apply perm_swap.
Qed.

Lemma sort_desc_perm (l : list entry) : sort_desc l ≡ₚ l.
Proof.
  unfold sort_desc.
  assert (H : forall acc, fold_left (fun acc e => insert_desc e acc) l acc ≡ₚ l ++ acc).
  { induction l as [|x l IH]; intros acc; simpl; [done |].
    rewrite IH, insert_desc_perm. symmetry. apply Permutation_middle. }
  rewrite H. by rewrite app_nil_r.
Qed.

Lemma insert_desc_hd (x e : entry) (l : list entry) :
  HdRel score_ge x l -> score_ge x e -> HdRel score_ge x (insert_desc e l).
Proof.
  intros Hh Hxe. destruct l as [|y r]; simpl; [by constructor |].
  destruct (Qle_bool _ _); constructor; [by inversion Hh | done].
Qed.

Lemma insert_desc_sorted (e : entry) (l : list entry) :
  Sorted score_ge l -> Sorted score_ge (insert_desc e l).
Proof.
  induction l as [|x r IH]; intros Hs; simpl; [by repeat constructor |].
  inversion Hs as [|? ? Hr Hh]; subst.
  destruct (Qle_bool _ _) eqn:Hle.
  - apply Qle_bool_iff in Hle. constructor; [auto |].
    apply insert_desc_hd; [done | exact Hle].
  - constructor; [done |]. constructor. unfold score_ge.
    apply Qlt_le_weak, Qnot_le_lt. intros Hc. apply Qle_bool_iff in Hc. congruence.
Qed.

Lemma sort_desc_sorted (l : list entry) : Sorted score_ge (sort_desc l).
Proof.
  unfold sort_desc.
  assert (H : forall acc, Sorted score_ge acc ->
            Sorted score_ge (fold_left (fun acc e => insert_desc e acc) l acc)).
  { induction l as [|x l IH]; intros acc Hacc; simpl; [done |].
    apply IH. by apply insert_desc_sorted. }
  apply H. constructor.
Qed.

Lemma calculate_hotspots_inv revs loc churn auths common hs :
  calculate_hotspots revs loc churn auths common = Some hs ->
  exists hs0, score_all revs loc churn auths (max_values revs) (max_values loc) common = Some hs0
    /\ hs = sort_desc hs0.
Proof.
  unfold calculate_hotspots. destruct (score_all _ _ _ _ _ _ _) as [hs0|]; [| discriminate].
  intros H. injection H as <-. by exists hs0.
Qed.

End ScorerLemmas.

Section ScorerProofs.
Import Scorer.

Lemma scored_entry revs loc churn auths common hs (e : entry) :
  calculate_hotspots revs loc churn auths common = Some hs -> e ∈ hs ->
  exists rc ln nr nl,
    revs !! file e = Some rc /\ loc !! file e = Some ln /\ 10 <= ln /\
    py_div rc (max_values revs) = Some nr /\ py_div ln (max_values loc) = Some nl /\
    revisions e = rc /\ lines e = ln /\
    hotspot_score e = round4 (fadd (fmul nr f07) (fmul nl f03)) /\
    norm_revisions e = round4 nr.
Proof.
  intros Hc He. destruct (calculate_hotspots_inv _ _ _ _ _ _ Hc) as (hs0 & Hs0 & ->).
  rewrite sort_desc_perm in He.
  destruct (score_all_spec _ _ _ _ _ _ _ _ Hs0) as (H1 & _).
  apply H1 in He as (f & _ & Hsf).
  destruct (score_file_Some _ _ _ _ _ _ _ _ Hsf)
    as (rc & ln & nr & nl & Hrc & Hln & H10 & Hnr & Hnl & <- & Hr & Hl & Hsc & Hn).
  exists rc, ln, nr, nl. auto 10.
Qed.


(** C1 (amended): [maxRevisions] and [maxLoc] are the maxima of the whole
    revision map and of the whole line-count map (1 for an empty map), not of
    their intersection.  Each produced entry has
    [normalizedRevisions = round(revisions / maxRevisions, 4)], computed in
    doubles, which is 1.0 when its revision count is the maximum of the
    whole revision map. *)
Theorem norm_revisions_whole_map_max revs loc churn auths common hs :
  calculate_hotspots revs loc churn auths common = Some hs ->
  (forall f v, revs !! f = Some v -> v <= max_values revs)
  /\ (revs <> ∅ -> exists f, revs !! f = Some (max_values revs))
  /\ (forall f v, loc !! f = Some v -> v <= max_values loc)
  /\ (loc <> ∅ -> exists f, loc !! f = Some (max_values loc))
  /\ max_values ∅ = 1
  /\ (forall e, e ∈ hs ->
        revs !! file e = Some (revisions e)
        /\ norm_revisions e = round4 (round_double (inject_Z (revisions e) / inject_Z (max_values revs)))
        /\ (revisions e = max_values revs -> norm_revisions e = 1%Q)).
Proof.
  intros Hc.
  split; [apply max_values_ge |]. split; [apply max_values_attained |].
  split; [apply max_values_ge |]. split; [apply max_values_attained |].
  split; [apply max_values_empty |].
  intros e He.
  destruct (scored_entry _ _ _ _ _ _ _ Hc He)
    as (rc & ln & nr & nl & Hrc & _ & _ & Hnr & _ & Hr & _ & _ & Hn).
  apply py_div_eq in Hnr as [Hne ->].
  rewrite Hr. split; [done |]. split; [done |].
  intros Hmax. rewrite Hn, round_double_one; [apply round4_one; reflexivity |]. rewrite Hmax.
  apply Qmult_inv_r. intros Hq. apply Hne. unfold Qeq in Hq. simpl in Hq. lia.
Qed.

Definition ex_hs : list entry :=
  Eval vm_compute in default [] (calculate_hotspots ex_revs ex_loc None None ["a.py"; "b.py"]).

Lemma norm_revisions_whole_map_max_witness :
  calculate_hotspots ex_revs ex_loc None None ["a.py"; "b.py"] = Some ex_hs
  /\ (forall e, e ∈ ex_hs -> revisions e = max_values ex_revs -> norm_revisions e = 1%Q).
Proof.
  assert (Hc : calculate_hotspots ex_revs ex_loc None None ["a.py"; "b.py"] = Some ex_hs)
    by (vm_compute; reflexivity).
  split; [exact Hc |].
  intros e He.
  destruct (norm_revisions_whole_map_max _ _ _ _ _ _ Hc) as (_ & _ & _ & _ & _ & Hall).
  apply (Hall e He).
Defined.

(** C1 (counterexample): with revisions [{a.py: 10, old.py: 20}] and line
    counts [{a.py: 50}], [a.py] is the only scored file, so it has the
    maximum revision count among the scored files, yet its normalized
    revisions are 0.5: [old.py], absent from the line counts, still sets
    [maxRevisions = 20]. *)
Lemma norm_revisions_intersection_cex :
  ~ (forall revs loc common hs, common_files_order revs loc common ->
       calculate_hotspots revs loc None None common = Some hs ->
       forall e, e ∈ hs -> (forall e', e' ∈ hs -> revisions e' <= revisions e) ->
       norm_revisions e = 1%Q).
Proof.
  intros H.
  set (revs := <["a.py" := 10]> (<["old.py" := 20]> ∅) : gmap string Z).
  set (loc := <["a.py" := 50]> ∅ : gmap string Z).
  assert (Hord : common_files_order revs loc ["a.py"]).
  { split; [repeat constructor; set_solver |].
    intros f. rewrite list_elem_of_singleton. subst revs loc. split.
    - intros ->. split; by eexists.
    - intros [[v Hv] [w Hw]]. rewrite lookup_insert in Hw.
      destruct (decide ("a.py" = f)); [done |]. by rewrite lookup_empty in Hw. }
  assert (Hc : calculate_hotspots revs loc None None ["a.py"]
               = Some [{| file := "a.py"; revisions := 10; lines := 50;
                          hotspot_score := round4 (fadd (fmul (round_double (10 # 20)) f07)
                                                        (fmul (round_double (50 # 50)) f03));
                          norm_revisions := round4 (round_double (10 # 20)); churn_added := None;
                          churn_deleted := None; total_churn := None; authors := None;
                          commits := None |}]).
  { vm_compute. reflexivity. }
  specialize (H revs loc ["a.py"] _ Hord Hc _ ltac:(left)).
  assert (Hx : round4 (round_double (10 # 20)) = 1%Q).
  { apply H. intros e' He'. apply list_elem_of_singleton in He'. subst e'. simpl. lia. }
  vm_compute in Hx. discriminate.
Qed.

End ScorerProofs.

Section ScorerProofs2.
Import Scorer.

(** C2: the produced entries are exactly the files of both maps whose line
    count is at least 10, each once; so a file with fewer than 10 lines, or
    present in only one of the maps, never appears. *)
Theorem hotspot_files_exact revs loc churn auths common hs :
  common_files_order revs loc common ->
  calculate_hotspots revs loc churn auths common = Some hs ->
  NoDup (map file hs)
  /\ (forall f, f ∈ map file hs <->
        is_Some (revs !! f) /\ exists n, loc !! f = Some n /\ 10 <= n).
Proof.
  intros [Hnd Hord] Hc.
  destruct (calculate_hotspots_inv _ _ _ _ _ _ Hc) as (hs0 & Hs0 & Hhs).
  destruct (score_all_spec _ _ _ _ _ _ _ _ Hs0) as (H1 & H2 & H3).
  split.
  - rewrite Hhs.
    assert (Hp : map file (sort_desc hs0) ≡ₚ map file hs0)
      by (apply Permutation_map, sort_desc_perm).
    rewrite Hp. exact (H3 Hnd).
  - intros f. split.
    + intros Hin. apply list_elem_of_fmap in Hin as (e & -> & He).
      destruct (scored_entry _ _ _ _ _ _ _ Hc He)
        as (rc & ln & _ & _ & Hrc & Hln & H10 & _).
      split; [by eexists | by exists ln].
    + intros (Hr & n & Hn & H10).
      assert (Hf : f ∈ common) by (apply Hord; split; [done | by eexists]).
      destruct (H2 f Hf) as ([e|] & Hsf).
      * apply list_elem_of_fmap. exists e.
        destruct (score_file_Some _ _ _ _ _ _ _ _ Hsf) as (_ & _ & _ & _ & _ & _ & _ & _ & _ & Hfe & _).
        split; [done |]. rewrite Hhs, sort_desc_perm. apply H1. by exists f.
      * destruct (score_file_skip _ _ _ _ _ _ _ Hsf) as (ln & Hln & Hlt).
        rewrite Hln in Hn. injection Hn as ->. lia.
Qed.

Lemma hotspot_files_exact_witness :
  common_files_order ex_revs ex_loc ["a.py"; "b.py"]
  /\ calculate_hotspots ex_revs ex_loc None None ["a.py"; "b.py"] = Some ex_hs
  /\ NoDup (map file ex_hs) /\ map file ex_hs = ["a.py"; "b.py"].
Proof.
  assert (Hord : common_files_order ex_revs ex_loc ["a.py"; "b.py"]).
  { split; [repeat constructor; set_solver |].
    intros f. unfold ex_revs, ex_loc. rewrite !lookup_insert.
    rewrite elem_of_cons, list_elem_of_singleton.
    destruct (decide ("a.py" = f)) as [<-|Ha]; [split; [intros _; split; by eexists | by left] |].
    destruct (decide ("b.py" = f)) as [<-|Hb]; [split; [intros _; split; by eexists | by right] |].
    rewrite !lookup_empty. split; [intros [H|H]; congruence | intros [[? H] _]; discriminate]. }
  assert (Hc : calculate_hotspots ex_revs ex_loc None None ["a.py"; "b.py"] = Some ex_hs)
    by (vm_compute; reflexivity).
  split; [exact Hord |]. split; [exact Hc |].
  split; [exact (proj1 (hotspot_files_exact _ _ _ _ _ _ Hord Hc)) | reflexivity].
Defined.

(** C8: when every revision count and line count is non-negative, every
    produced entry has a hotspot score in [[0, 1]], with the scorer's
    divisions, products, sum and rounding all done in doubles. *)
Theorem hotspot_score_unit revs loc churn auths common hs :
  (forall f v, revs !! f = Some v -> 0 <= v) ->
  (forall f v, loc !! f = Some v -> 0 <= v) ->
  calculate_hotspots revs loc churn auths common = Some hs ->
  forall e, e ∈ hs -> (0 <= hotspot_score e <= 1)%Q.
Proof.
  intros Hr Hl Hc e He.
  destruct (scored_entry _ _ _ _ _ _ _ Hc He)
    as (rc & ln & nr & nl & Hrc & Hln & _ & Hnr & Hnl & _ & _ & Hsc & _).
  rewrite Hsc. apply round4_unit, score_sum_unit.
  - exact (py_div_unit rc _ nr (Hr _ _ Hrc) (max_values_ge _ _ _ Hrc) Hnr).
  - exact (py_div_unit ln _ nl (Hl _ _ Hln) (max_values_ge _ _ _ Hln) Hnl).
Qed.

Lemma hotspot_score_unit_witness :
  (forall f v, ex_revs !! f = Some v -> 0 <= v)
  /\ (forall f v, ex_loc !! f = Some v -> 0 <= v)
  /\ calculate_hotspots ex_revs ex_loc None None ["b.py"; "a.py"] = Some ex_hs
  /\ (forall e, e ∈ ex_hs -> (0 <= hotspot_score e <= 1)%Q).
Proof.
  assert (Hr : forall f v, ex_revs !! f = Some v -> 0 <= v).
  { intros f v. unfold ex_revs. rewrite !lookup_insert.
    repeat case_decide; rewrite ?lookup_empty; intros Hv; inversion Hv; lia. }
  assert (Hl : forall f v, ex_loc !! f = Some v -> 0 <= v).
  { intros f v. unfold ex_loc. rewrite !lookup_insert.
    repeat case_decide; rewrite ?lookup_empty; intros Hv; inversion Hv; lia. }
  assert (Hc : calculate_hotspots ex_revs ex_loc None None ["b.py"; "a.py"] = Some ex_hs)
    by (vm_compute; reflexivity).
  split; [exact Hr |]. split; [exact Hl |]. split; [exact Hc |].
  exact (hotspot_score_unit _ _ _ _ _ _ Hr Hl Hc).
Defined.

End ScorerProofs2.

Section ScorerProofs3.
Import Scorer.

Lemma ex_both_maps (f : string) :
  is_Some (ex_revs !! f) /\ is_Some (ex_loc !! f) <-> f ∈ ["a.py"; "b.py"].
Proof.
  unfold ex_revs, ex_loc. rewrite !lookup_insert.
  rewrite elem_of_cons, list_elem_of_singleton.
  destruct (decide ("a.py" = f)) as [<-|Ha]; [split; [by left | intros _; split; by eexists] |].
  destruct (decide ("b.py" = f)) as [<-|Hb]; [split; [by right | intros _; split; by eexists] |].
  rewrite !lookup_empty. split; [intros [[? H] _]; discriminate | intros [H|H]; congruence].
Qed.

Lemma ex_common_orders (common : list string) :
  common_files_order ex_revs ex_loc common ->
  common = ["a.py"; "b.py"] \/ common = ["b.py"; "a.py"].
Proof.
  intros [Hnd Hord].
  assert (Hp : ["a.py"; "b.py"] ≡ₚ common).
  { apply NoDup_Permutation; [repeat constructor; set_solver | done |].
    intros f. rewrite Hord. symmetry. apply ex_both_maps. }
  by apply Permutation_length_2_inv in Hp.
Qed.

(** C3: every produced entry has
    [hotspotScore = round(revisions / maxRevisions * 0.7 + lines / maxLoc * 0.3, 4)],
    each operation a double operation as in Python, and the output is
    sorted by descending score.  On revisions
    [{a.py: 10, b.py: 2}] and line counts [{a.py: 50, b.py: 20}], whatever
    the iteration order of the intersection, the output is [[a.py, b.py]],
    [a.py] with normalized revisions 1.0 and score 1.0, [b.py] with
    normalized revisions 0.2 and score 0.26 (its normalized line count is
    0.4), each the double of that literal. *)
Theorem hotspot_score_formula_sorted revs loc churn auths common hs :
  calculate_hotspots revs loc churn auths common = Some hs ->
  Sorted score_ge hs
  /\ (forall e, e ∈ hs -> exists n,
        revs !! file e = Some (revisions e) /\ loc !! file e = Some n /\ lines e = n /\
        hotspot_score e
        = round4 (fadd (fmul (round_double (inject_Z (revisions e) / inject_Z (max_values revs))) f07)
                       (fmul (round_double (inject_Z n / inject_Z (max_values loc))) f03)))
  /\ (forall common', common_files_order ex_revs ex_loc common' ->
        option_map (map (fun e => (file e, norm_revisions e, hotspot_score e)))
          (calculate_hotspots ex_revs ex_loc None None common')
        = Some [("a.py", 1%Q, 1%Q); ("b.py", round_double 0.2, round_double 0.26)])
  /\ round_double (inject_Z 10 / inject_Z (max_values ex_revs)) = 1%Q
  /\ round_double (inject_Z 50 / inject_Z (max_values ex_loc)) = 1%Q
  /\ round_double (inject_Z 2 / inject_Z (max_values ex_revs)) = round_double 0.2
  /\ round_double (inject_Z 20 / inject_Z (max_values ex_loc)) = round_double 0.4.
Proof.
  intros Hc. split; [| split; [| split]].
  - destruct (calculate_hotspots_inv _ _ _ _ _ _ Hc) as (hs0 & _ & ->).
    apply sort_desc_sorted.
  - intros e He.
    destruct (scored_entry _ _ _ _ _ _ _ Hc He)
      as (rc & ln & nr & nl & Hrc & Hln & _ & Hnr & Hnl & Hr & Hl & Hsc & _).
    apply py_div_eq in Hnr as [_ ->]. apply py_div_eq in Hnl as [_ ->].
    exists ln. rewrite Hr. auto.
  - intros common' Hord.
    destruct (ex_common_orders common' Hord) as [->| ->]; vm_compute; reflexivity.
  - vm_compute. repeat split; reflexivity.
Qed.

Lemma hotspot_score_formula_sorted_witness :
  calculate_hotspots ex_revs ex_loc None None ["b.py"; "a.py"] = Some ex_hs
  /\ Sorted score_ge ex_hs.
Proof.
  assert (Hc : calculate_hotspots ex_revs ex_loc None None ["b.py"; "a.py"] = Some ex_hs)
    by (vm_compute; reflexivity).
  split; [exact Hc |].
  exact (proj1 (hotspot_score_formula_sorted _ _ _ _ _ _ Hc)).
Defined.

End ScorerProofs3.

(** ** Hierarchy Builder *)

Section HierarchyProofs.
Import PyStr Scorer Hierarchy.

Lemma split_not_nil (c : ascii) (s : string) : split c s <> [].
Proof.
  destruct s as [|d r]; simpl; [done |].
  destruct (ascii_dec d c); [done |]. by destruct (split c r).
Qed.

(** [sep.join(s.split(sep)) == s] *)
Lemma join_split (c : ascii) (s : string) : join (String c EmptyString) (split c s) = s.
Proof.
  induction s as [|d r IH]; simpl; [done |].
  pose proof (split_not_nil c r) as Hne.
  destruct (split c r) as [|w ws] eqn:Hs; [done |].
  destruct (ascii_dec d c) as [->|Hdc].
  - simpl. rewrite <- IH. reflexivity.
  - destruct ws as [|w' ws']; simpl in *; [by rewrite IH | by rewrite <- IH].
Qed.

Lemma removelast_last (l : list string) :
  l <> [] -> l = removelast l ++ [default EmptyString (last l)].
Proof.
  induction l as [|x [|y r] IH]; intros Hne; [done | done |].
  change (removelast (x :: y :: r)) with (x :: removelast (y :: r)).
  change (last (x :: y :: r)) with (last (y :: r)).
  simpl. f_equal. apply IH. done.
Qed.

(** Every child of a dict node is stored under its own name, and satisfies
    [ok]. *)
Fixpoint kids_ok (ok : dnode -> Prop) (l : list (string * dnode)) : Prop :=
  match l with
  | [] => True
  | (k, c) :: r => node_name c = k /\ ok c /\ kids_ok ok r
  end.

(** Every file leaf below [n], with the names [anc] above [n], satisfies
    [P] on its list of names. *)
Fixpoint dnode_ok (P : list string -> leaf_info -> Prop) (anc : list string) (n : dnode) : Prop :=
  match n with
  | DLeaf i => P (anc ++ [leaf_name i]) i
  | DDir nm ch => kids_ok (dnode_ok P (anc ++ [nm])) ch
  end.

Lemma kids_ok_In (ok : dnode -> Prop) (l : list (string * dnode)) (k : string) (c : dnode) :
  kids_ok ok l -> In (k, c) l -> ok c.
Proof.
  induction l as [|[k' c'] r IH]; simpl; [done |].
  intros (_ & Hc & Hr) [H|H]; [by injection H as -> <- | auto].
Qed.

Lemma assoc_get_ok (ok : dnode -> Prop) (l : list (string * dnode)) (k : string) (c : dnode) :
  kids_ok ok l -> assoc_get k l = Some c -> node_name c = k /\ ok c.
Proof.
  induction l as [|[k' c'] r IH]; simpl; [discriminate |].
  intros (Hn & Hc & Hr). destruct (String.eqb_spec k' k) as [<-|_]; [| auto].
  intros H. by injection H as <-.
Qed.

Lemma assoc_set_ok (ok : dnode -> Prop) (l : list (string * dnode)) (k : string) (v : dnode) :
  kids_ok ok l -> node_name v = k -> ok v -> kids_ok ok (assoc_set k v l).
Proof.
  induction l as [|[k' c'] r IH]; simpl; intros Hl Hn Hv; [done |].
  destruct Hl as (Hn' & Hc' & Hr).
  destruct (String.eqb_spec k' k) as [<-|_]; simpl; auto.
Qed.

Lemma insert_leaf_ok (P : list string -> leaf_info -> Prop) (dirs : list string) :
  forall anc fname i ch ch',
  kids_ok (dnode_ok P anc) ch ->
  insert_leaf dirs fname (DLeaf i) ch = Some ch' ->
  leaf_name i = fname -> P (anc ++ dirs ++ [fname]) i ->
  kids_ok (dnode_ok P anc) ch'.
Proof.
  induction dirs as [|part rest IH]; intros anc fname i ch ch' Hch Hins Hname HP; simpl in Hins.
  - injection Hins as <-. apply assoc_set_ok; [done | done |]. simpl. by rewrite Hname.
  - destruct (assoc_get part ch) as [[nm ch0|li]|] eqn:Hg.
    + destruct (assoc_get_ok _ _ _ _ Hch Hg) as (Hnm & Hok). simpl in Hnm, Hok. subst nm.
      destruct (insert_leaf rest fname (DLeaf i) ch0) as [sub|] eqn:Hsub; [| discriminate].
      injection Hins as <-. apply assoc_set_ok; [done | done |]. simpl.
      eapply IH; [exact Hok | exact Hsub | done | by rewrite <- app_assoc].
    + discriminate.
    + destruct (insert_leaf rest fname (DLeaf i) []) as [sub|] eqn:Hsub; [| discriminate].
      injection Hins as <-. apply assoc_set_ok; [done | done |]. simpl.
      eapply IH; [| exact Hsub | done | by rewrite <- app_assoc]. done.
Qed.

(** Induction over the dict tree, through the children lists. *)
Definition dnode_ind_deep (Pn : dnode -> Prop)
    (Hleaf : forall i, Pn (DLeaf i))
    (Hdir : forall nm ch, (forall k c, In (k, c) ch -> Pn c) -> Pn (DDir nm ch)) :
    forall n, Pn n :=
  fix rec (n : dnode) : Pn n :=
    match n with
    | DLeaf i => Hleaf i
    | DDir nm ch =>
        Hdir nm ch
          ((fix go (l : list (string * dnode)) : forall k c, In (k, c) l -> Pn c :=
              match l with
              | [] => fun k c H => False_ind _ H
              | (k', c') :: r => fun k c H =>
                  match H with
                  | or_introl E => eq_ind (k', c') (fun p => Pn p.2) (rec c') (k, c) E
                  | or_intror H' => go r k c H'
                  end
              end) ch)
    end.

Lemma hleaves_convert_dir (anc : list string) (nm : string) (ch : list (string * dnode)) :
  hleaves anc (convert_to_list (DDir nm ch))
  = concat (map (hleaves (anc ++ [nm])) (map (fun kc => convert_to_list kc.2) ch)).
Proof. simpl. by destruct (map _ ch). Qed.

Lemma tree_leaves_convert (nm : string) (ch : list (string * dnode)) :
  tree_leaves (convert_to_list (DDir nm ch))
  = concat (map (hleaves []) (map (fun kc => convert_to_list kc.2) ch)).
Proof. simpl. by destruct (map _ ch). Qed.

Lemma convert_leaves_ok (P : list string -> leaf_info -> Prop) (n : dnode) :
  forall anc, dnode_ok P anc n ->
  forall ps i, In (ps, i) (hleaves anc (convert_to_list n)) -> P ps i.
Proof.
  induction n as [i | nm ch IHc] using dnode_ind_deep; intros anc Hok ps j Hin.
  - simpl in Hin. destruct Hin as [H|[]]. injection H as <- <-. exact Hok.
  - rewrite hleaves_convert_dir in Hin.
    apply in_concat in Hin as (l & Hl & Hx).
    apply in_map_iff in Hl as (n & <- & Hn).
    apply in_map_iff in Hn as ([k c] & <- & Hkc).
    eapply IHc; [exact Hkc | | exact Hx].
    exact (kids_ok_In _ _ _ _ Hok Hkc).
Qed.

Lemma fold_add_entry_none (l : list entry) : fold_left add_entry l None = None.
Proof. induction l; simpl; auto. Qed.

(** The property of each leaf of the round trip. *)
Definition round_trip (hotspots : list entry) (ps : list string) (i : leaf_info) : Prop :=
  join "/" ps = fullPath i /\
  exists e, e ∈ hotspots /\ i = leaf_of (leaf_name i) e /\ fullPath i = file e.

Lemma fold_add_entry_ok (hotspots : list entry) (l : list entry) :
  forall ch r, (forall e, e ∈ l -> e ∈ hotspots) ->
  kids_ok (dnode_ok (round_trip hotspots) []) ch ->
  fold_left add_entry l (Some ch) = Some r ->
  kids_ok (dnode_ok (round_trip hotspots) []) r.
Proof.
  induction l as [|e l IH]; intros ch r Hsub Hch Hf; simpl in Hf.
  - by injection Hf as <-.
  - destruct (insert_leaf _ _ _ ch) as [ch1|] eqn:Hins;
      [| by rewrite fold_add_entry_none in Hf].
    eapply IH; [intros e' He'; apply Hsub; by right | | exact Hf].
    eapply insert_leaf_ok; [exact Hch | exact Hins | reflexivity |].
    simpl. split.
    + rewrite <- removelast_last by apply split_not_nil. apply join_split.
    + exists e. split; [apply Hsub; left | done].
Qed.

(** C5: for every file leaf of the tree built by [build_hierarchy], joining
    with ['/'] the names of its ancestor directories below the root and its
    own name gives back the file path of the entry it was built from (its
    [fullPath]). *)
Theorem hierarchy_round_trip (hotspots : list entry) (root : hnode) :
  build_hierarchy hotspots = Some root ->
  forall ps i, (ps, i) ∈ tree_leaves root ->
  join "/" ps = fullPath i
  /\ exists e, e ∈ hotspots /\ i = leaf_of (leaf_name i) e /\ fullPath i = file e.
Proof.
  unfold build_hierarchy. intros Hb ps i Hin.
  destruct (fold_left add_entry hotspots (Some [])) as [ch|] eqn:Hf; [| discriminate].
  assert (Hroot : convert_to_list (DDir "root" ch) = root) by congruence.
  assert (Hok : kids_ok (dnode_ok (round_trip hotspots) []) ch)
    by (apply (fold_add_entry_ok hotspots hotspots [] ch); [intros e He; exact He | exact I | exact Hf]).
  rewrite <- Hroot, tree_leaves_convert in Hin. apply list_elem_of_In in Hin.
  apply in_concat in Hin as (l & Hl & Hx).
  apply in_map_iff in Hl as (n & <- & Hn).
  apply in_map_iff in Hn as ([k c] & <- & Hkc).
  exact (convert_leaves_ok _ c [] (kids_ok_In _ _ _ _ Hok Hkc) ps i Hx).
Qed.

End HierarchyProofs.

Section HierarchyExamples.
Import PyStr Scorer Hierarchy.

Definition mk_entry (f : string) (n : Z) : entry := {|
  file := f; revisions := n; lines := 20; hotspot_score := 1%Q; norm_revisions := 1%Q;
  churn_added := None; churn_deleted := None; total_churn := None; authors := None;
  commits := Some [] |}.

Definition ex_tree_hs : list entry :=
  [mk_entry "src/app.py" 3; mk_entry "src/lib/util.py" 2; mk_entry "README.md" 1].

Definition ex_tree : hnode :=
  Eval vm_compute in default (HBare "root") (build_hierarchy ex_tree_hs).

Lemma hierarchy_round_trip_witness :
  build_hierarchy ex_tree_hs = Some ex_tree
  /\ map fst (tree_leaves ex_tree) = [["src"; "app.py"]; ["src"; "lib"; "util.py"]; ["README.md"]]
  /\ (forall ps i, (ps, i) ∈ tree_leaves ex_tree -> join "/" ps = fullPath i).
Proof.
  assert (Hb : build_hierarchy ex_tree_hs = Some ex_tree) by (vm_compute; reflexivity).
  split; [exact Hb |]. split; [vm_compute; reflexivity |].
  intros ps i Hin. exact (proj1 (hierarchy_round_trip ex_tree_hs ex_tree Hb ps i Hin)).
Defined.

(** A file path that is also a directory prefix of a later path makes the
    walk step into the file's leaf dict: [build_hierarchy] raises. *)
Example hierarchy_leaf_then_dir :
  build_hierarchy [mk_entry "a" 1; mk_entry "a/b.py" 1] = None.
Proof. vm_compute. reflexivity. Qed.

End HierarchyExamples.

(* ------------------------------------------------------------------ *)
(** ** Further properties of [should_exclude] *)

Section ExcludeExtra.
Import PyStr FnMatch Exclude.

Lemma lower_app (a b : string) : lower (String.append a b) = String.append (lower a) (lower b).
Proof. induction a as [|c r IH]; simpl; [done |]. by rewrite IH. Qed.

Lemma list_ascii_app (a b : string) :
  list_ascii_of_string (String.append a b) = list_ascii_of_string a ++ list_ascii_of_string b.
Proof. induction a as [|c r IH]; simpl; [done |]. by rewrite IH. Qed.

Lemma gmatch_star_unfold (ts : list gtok) (s : list ascii) :
  gmatch (GStar :: ts) s
  = gmatch ts s || match s with [] => false | _ :: s' => gmatch (GStar :: ts) s' end.
Proof. destruct s; reflexivity. Qed.

Lemma gmatch_star (ts : list gtok) (pre s : list ascii) :
  gmatch ts s = true -> gmatch (GStar :: ts) (pre ++ s) = true.
Proof.
  intros H. induction pre as [|c pre IH]; rewrite gmatch_star_unfold; cbn [app].
  - by rewrite H.
  - rewrite IH. apply orb_true_r.
Qed.

Lemma translate_star_slash (q : string) :
  translate (String.append "*/" q) = GStar :: GLit "/"%char :: translate q.
Proof. reflexivity. Qed.

(** A pattern that matches the tail [suffix] of a path (case-insensitively)
    excludes that path below any directory [dir]. *)
Theorem should_exclude_any_depth (dir suffix p : string) (patterns : list string) :
  p ∈ patterns -> fnmatch (lower suffix) (lower p) = true ->
  should_exclude (String.append dir (String "/"%char suffix)) patterns = true.
Proof.
  intros Hin Hm. unfold should_exclude. apply existsb_exists. exists p.
  split; [by apply list_elem_of_In |].
  unfold pattern_match. apply orb_true_iff. left. apply orb_true_iff. right.
  rewrite lower_app. cbn [lower].
  replace (lower_char "/") with "/"%char by reflexivity.
  unfold fnmatch. rewrite translate_star_slash, list_ascii_app.
  apply gmatch_star. simpl. exact Hm.
Qed.

Lemma should_exclude_any_depth_witness :
  should_exclude (String.append "web/static/vendor" (String "/"%char "jquery.MIN.js")) ["*.min.js"] = true.
Proof.
  apply (should_exclude_any_depth "web/static/vendor" "jquery.MIN.js" "*.min.js" ["*.min.js"]).
  - by left.
  - vm_compute. reflexivity.
Defined.

End ExcludeExtra.
(* ------------------------------------------------------------------ *)
(** ** Further properties of the History Extractor and the Size Counter *)

Section HistoryExtra.
Import PyStr Exclude History.

(** The number of lines that strip to [k]. *)
Definition occurrences (k : string) (ls : list string) : nat :=
  length (List.filter (fun l => String.eqb (strip l) k) ls).

Lemma rev_fold_count (exclusions : list string) (k : string) :
  k <> EmptyString -> startswith k "commit" = false -> should_exclude k exclusions = false ->
  forall ls acc,
  fold_left (rev_step exclusions) ls acc !! k
  = if Nat.eqb (occurrences k ls) 0 then acc !! k
    else Some (default 0 (acc !! k) + Z.of_nat (occurrences k ls)).
Proof.
  intros Hk Hc Hx ls. unfold occurrences.
  induction ls as [|l ls IH]; intros acc; [done |].
  cbn [fold_left List.filter]. rewrite IH.
  destruct (String.eqb_spec (strip l) k) as [Heq|Hne].
  - assert (Hl : rev_step exclusions acc l !! k = Some (default 0 (acc !! k) + 1)).
    { unfold rev_step. rewrite ?Heq.
      destruct (String.eqb_spec k "") as [|_]; [done |]. rewrite Hc, Hx. simpl.
      by rewrite lookup_insert_eq. }
    rewrite ?Heq, ?String.eqb_refl, Hl. cbn [length default].
    destruct (Nat.eqb_spec (length (List.filter (fun l0 => String.eqb (strip l0) k) ls)) 0) as [H0|H0];
      simpl; f_equal; lia.
  - assert (Hl : rev_step exclusions acc l !! k = acc !! k).
    { unfold rev_step; cbv zeta. destruct (_ && _); [| done]. destruct (should_exclude (strip l) exclusions); [done |].
      by rewrite lookup_insert_ne. }
    by rewrite Hl.
Qed.

(** [get_revision_frequency] counts, for a key that is not empty, does not
    start with ["commit"] and is not excluded, the lines of the log that
    strip to it; a key with no such line is absent. *)
Theorem revision_frequency_counts (output : string) (exclusions : list string) (k : string) :
  k <> EmptyString -> startswith k "commit" = false -> should_exclude k exclusions = false ->
  get_revision_frequency (Some output) exclusions !! k
  = let n := occurrences k (split newline output) in
    if Nat.eqb n 0 then None else Some (Z.of_nat n).
Proof.
  intros Hk Hc Hx. unfold get_revision_frequency.
  rewrite (rev_fold_count exclusions k Hk Hc Hx). cbv zeta.
  rewrite lookup_empty. by destruct (Nat.eqb _ _).
Qed.

Lemma revision_frequency_counts_witness :
  get_revision_frequency (Some (String.append "a.py" (String newline (String.append " a.py "
     (String newline (String.append "commit" (String newline "b.py"))))))) [] !! "a.py" = Some 2.
Proof.
  rewrite (revision_frequency_counts _ [] "a.py"); [| done | reflexivity | reflexivity].
  vm_compute. reflexivity.
Defined.

Lemma rev_fold_pos (exclusions : list string) (ls : list string) :
  forall acc, (forall k n, acc !! k = Some n -> 1 <= n) ->
  forall k n, fold_left (rev_step exclusions) ls acc !! k = Some n -> 1 <= n.
Proof.
  induction ls as [|l ls IH]; intros acc Hacc; simpl; [done |].
  apply IH. intros k n. unfold rev_step.
  destruct (_ && _); [| apply Hacc]. destruct (should_exclude (strip l) exclusions); [apply Hacc |].
  destruct (String.eqb_spec (strip l) k) as [<-|Hne].
  - rewrite lookup_insert_eq. intros H. injection H as <-.
    destruct (acc !! strip l) as [m|] eqn:Hm; simpl; [specialize (Hacc _ _ Hm) |]; lia.
  - rewrite lookup_insert_ne by done. apply Hacc.
Qed.

Lemma revision_frequency_pos (output : option string) (exclusions : list string) (k : string) (n : Z) :
  get_revision_frequency output exclusions !! k = Some n -> 1 <= n.
Proof.
  destruct output as [out|]; simpl; [| by rewrite lookup_empty].
  apply rev_fold_pos. intros k' n'. by rewrite lookup_empty.
Qed.

(** A fold whose steps never add the key [k] leaves it absent. *)
Lemma fold_lookup_none {S V : Type} (proj : S -> gmap string V) (f : S -> string -> S) (k : string) :
  (forall st x, proj st !! k = None -> proj (f st x) !! k = None) ->
  forall ls st, proj st !! k = None -> proj (fold_left f ls st) !! k = None.
Proof. intros Hf ls. induction ls as [|x ls IH]; intros st Hst; simpl; auto. Qed.

Ltac insert_ne x k :=
  let Hne := fresh "Hne" in
  assert (Hne : x <> k) by (let Heq := fresh in intros Heq; subst k; congruence);
  rewrite ?lookup_insert_ne by exact Hne.

(** No extractor returns an excluded path: [get_revision_frequency],
    [get_churn_data], [get_author_count], [get_commit_messages] and
    [count_lines_of_code] all skip it. *)
Theorem excluded_path_absent (o1 o2 o3 o4 o5 : option string) (exclusions : list string)
    (fs : string -> option string) (k : string) :
  should_exclude k exclusions = true ->
  get_revision_frequency o1 exclusions !! k = None
  /\ get_churn_data o2 exclusions !! k = None
  /\ get_author_count o3 exclusions !! k = None
  /\ get_commit_messages o4 exclusions !! k = None
  /\ Loc.count_lines_of_code o5 exclusions fs !! k = None.
Proof.
  intros Hx. repeat split.
  - destruct o1 as [out|]; simpl; [| apply lookup_empty].
    apply (fold_lookup_none id); [| unfold id; apply lookup_empty].
    unfold id. intros acc l Hacc. unfold rev_step; cbv zeta.
    destruct (_ && _); [| done]. destruct (should_exclude (strip l) exclusions) eqn:Hs; [done |].
    insert_ne (strip l) k. done.
  - destruct o2 as [out|]; simpl; [| apply lookup_empty]. unfold churn_lines.
    apply (fold_lookup_none id); [| unfold id; apply lookup_empty].
    unfold id. intros acc l Hacc. unfold churn_step.
    destruct (split tab l) as [|a [|d [|f [|? ?]]]]; try done.
    destruct (should_exclude f exclusions) eqn:Hs; [done |].
    insert_ne f k. destruct (count_field a); [destruct (count_field d) |]; rewrite ?lookup_insert_ne by done; done.
  - destruct o3 as [out|]; simpl; [| apply lookup_empty]. unfold author_lines.
    rewrite lookup_fmap. apply fmap_None.
    apply (fold_lookup_none snd); [| simpl; apply lookup_empty].
    intros [cur m] l Hm. unfold author_step; cbv zeta. simpl in *.
    destruct (String.eqb _ _); [done |]. destruct (_ || _); [| done].
    destruct cur as [a|]; [| done]. destruct (should_exclude (strip l) exclusions) eqn:Hs; [done |].
    simpl. insert_ne (strip l) k. done.
  - destruct o4 as [out|]; simpl; [| apply lookup_empty]. unfold commit_lines.
    apply (fold_lookup_none file_commits); [| simpl; apply lookup_empty].
    intros st l Hst. unfold commit_step; cbv zeta.
    destruct (String.eqb _ _); [done |].
    destruct (startswith _ _); [by destruct (commit_fields _) as [|? [|? [|? [|? ?]]]] |].
    destruct (current_commit st); [| done]. destruct (_ || _); [| done].
    destruct (should_exclude (strip l) exclusions) eqn:Hs; [done |]. simpl. insert_ne (strip l) k. done.
  - destruct o5 as [out|]; simpl; [| apply lookup_empty].
    apply (fold_lookup_none id); [| unfold id; apply lookup_empty].
    unfold id. intros acc l Hacc. unfold Loc.loc_step; cbv zeta.
    destruct (String.eqb _ _); [done |]. destruct (should_exclude (strip l) exclusions) eqn:Hs; [done |].
    destruct (fs _); [| done]. insert_ne (strip l) k. done.
Qed.

Lemma excluded_path_absent_witness :
  should_exclude "node_modules/x/index.js" ["node_modules/*"] = true
  /\ get_revision_frequency (Some "node_modules/x/index.js") ["node_modules/*"] !! "node_modules/x/index.js" = None.
Proof.
  assert (H : should_exclude "node_modules/x/index.js" ["node_modules/*"] = true) by reflexivity.
  split; [exact H |].
  exact (proj1 (excluded_path_absent (Some "node_modules/x/index.js") None None None None
                  ["node_modules/*"] (fun _ => None) _ H)).
Defined.

End HistoryExtra.
Section HistoryExtra2.
Import PyStr Exclude History.

(** The traces of a commit record in the log [L]: a ["COMMIT:"] line whose
    fields are the record's. *)
Definition from_marker (L : list string) (c : commit_record) : Prop :=
  exists raw, raw ∈ L /\ startswith (strip raw) "COMMIT:" = true /\
  exists rest, commit_fields (strip raw) = hash c :: author c :: date c :: message c :: rest.

Definition commit_inv (L : list string) (st : commit_state) : Prop :=
  (forall c, current_commit st = Some c -> from_marker L c) /\
  (forall k cs, file_commits st !! k = Some cs ->
     (has_char "/"%char k || has_char "."%char k) = true /\ forall c, c ∈ cs -> from_marker L c).

Lemma commit_fold_inv (exclusions L : list string) (ls : list string) :
  forall st, (forall x, x ∈ ls -> x ∈ L) -> commit_inv L st ->
  commit_inv L (fold_left (commit_step exclusions) ls st).
Proof.
  induction ls as [|l ls IH]; intros st Hsub Hinv; simpl; [done |].
  pose proof Hinv as [Hcur Hfc].
  apply IH; [intros x Hx; apply Hsub; by right |].
  assert (HL : l ∈ L) by (apply Hsub; by left).
  unfold commit_step; cbv zeta.
  destruct (String.eqb _ _); [done |].
  destruct (startswith (strip l) "COMMIT:") eqn:Hm.
  - destruct (commit_fields (strip l)) as [|p0 [|p1 [|p2 [|p3 rest]]]] eqn:Hf;
      split; simpl; try (intros c Hc; discriminate); try exact Hfc.
    intros c Hc. injection Hc as <-. exists l. split; [done |]. split; [done |].
    exists rest. exact Hf.
  - destruct (current_commit st) as [c|] eqn:Hc; [| done].
    destruct (_ || _) eqn:Hpath; [| done].
    destruct (should_exclude (strip l) exclusions); [done |].
    split; simpl; [done |].
    intros k cs. destruct (String.eqb_spec (strip l) k) as [<-|Hne].
    + rewrite lookup_insert_eq. intros H. injection H as <-. split; [done |].
      intros c' Hc'. apply elem_of_app in Hc' as [Hc'|Hc'].
      * destruct (file_commits st !! strip l) as [cs0|] eqn:H0; simpl in Hc'.
        -- exact (proj2 (Hfc _ _ H0) c' Hc').
        -- by apply elem_of_nil in Hc'.
      * apply list_elem_of_singleton in Hc' as ->. by apply Hcur.
    + rewrite lookup_insert_ne by done. apply Hfc.
Qed.

(** Every commit [get_commit_messages] attributes to a file comes from a
    ["COMMIT:"] line of the log whose first four fields are its hash,
    author, date and message, and every key contains ['/'] or ['.']. *)
Theorem commit_messages_from_markers (output : string) (exclusions : list string)
    (k : string) (cs : list commit_record) :
  get_commit_messages (Some output) exclusions !! k = Some cs ->
  (has_char "/"%char k || has_char "."%char k) = true
  /\ forall c, c ∈ cs -> from_marker (split newline output) c.
Proof.
  simpl. unfold commit_lines. intros H.
  destruct (commit_fold_inv exclusions (split newline output) (split newline output)
             {| current_commit := None; file_commits := ∅ |}) as [_ Hfc].
  - done.
  - split; simpl; [discriminate | intros k' cs'; by rewrite lookup_empty].
  - exact (Hfc k cs H).
Qed.

Lemma commit_messages_from_markers_witness :
  get_commit_messages (Some (String.append "COMMIT:ab1|ann|2024-05-01|Fix x"
     (String newline "src/x.py"))) [] !! "src/x.py"
  = Some [{| hash := "ab1"; author := "ann"; date := "2024-05-01"; message := "Fix x" |}]
  /\ from_marker (split newline (String.append "COMMIT:ab1|ann|2024-05-01|Fix x"
       (String newline "src/x.py")))
       {| hash := "ab1"; author := "ann"; date := "2024-05-01"; message := "Fix x" |}.
Proof.
  assert (H : get_commit_messages (Some (String.append "COMMIT:ab1|ann|2024-05-01|Fix x"
     (String newline "src/x.py"))) [] !! "src/x.py"
     = Some [{| hash := "ab1"; author := "ann"; date := "2024-05-01"; message := "Fix x" |}])
    by (vm_compute; reflexivity).
  split; [exact H |].
  apply (proj2 (commit_messages_from_markers _ [] "src/x.py" _ H)). by left.
Defined.

Definition author_inv (L : list string) (m : gmap string (gset string)) : Prop :=
  forall k s, m !! k = Some s ->
  (exists a, a ∈ s) /\ (has_char "/"%char k || has_char "."%char k) = true
  /\ exists raw, raw ∈ L /\ strip raw = k.

Lemma author_fold_inv (exclusions L : list string) (ls : list string) :
  forall st, (forall x, x ∈ ls -> x ∈ L) -> author_inv L st.2 ->
  author_inv L (fold_left (author_step exclusions) ls st).2.
Proof.
  induction ls as [|l ls IH]; intros [cur m] Hsub Hm; simpl; [done |].
  apply IH; [intros x Hx; apply Hsub; by right |].
  assert (HL : l ∈ L) by (apply Hsub; by left).
  unfold author_step; cbv zeta. simpl.
  destruct (String.eqb _ _); [done |].
  destruct (_ || _) eqn:Hpath; [| done].
  destruct cur as [a|]; [| done].
  destruct (should_exclude (strip l) exclusions); [done |]. simpl.
  intros k s. destruct (String.eqb_spec (strip l) k) as [<-|Hne].
  - rewrite lookup_insert_eq. intros H. injection H as <-.
    split; [exists a; set_solver |]. split; [done |]. by exists l.
  - rewrite lookup_insert_ne by done. apply Hm.
Qed.

(** Every count of [get_author_count] is at least 1, for a key that
    contains ['/'] or ['.'] and is the stripped form of a line of the log. *)
Theorem author_count_positive (output : string) (exclusions : list string) (k : string) (n : Z) :
  get_author_count (Some output) exclusions !! k = Some n ->
  1 <= n /\ (has_char "/"%char k || has_char "."%char k) = true
  /\ exists raw, raw ∈ split newline output /\ strip raw = k.
Proof.
  simpl. unfold author_lines. rewrite lookup_fmap. intros H.
  destruct ((fold_left (author_step exclusions) (split newline output) (None, ∅)).2 !! k)
    as [s|] eqn:Hs; [| discriminate].
  injection H as <-.
  destruct (author_fold_inv exclusions (split newline output) (split newline output) (None, ∅)
              (fun x Hx => Hx) ltac:(intros k' s'; simpl; by rewrite lookup_empty) k s Hs)
    as ([a Ha] & Hk & Htr).
  split; [| done].
  assert (Hsz : size s <> 0%nat).
  { intros H0. apply size_empty_iff in H0. set_solver. }
  lia.
Qed.

Lemma author_count_positive_witness :
  get_author_count (Some (String.append "ann" (String newline (String.append "src/x.py"
     (String newline (String.append "bob" (String newline "src/x.py"))))))) [] !! "src/x.py" = Some 2
  /\ 1 <= 2.
Proof.
  assert (H : get_author_count (Some (String.append "ann" (String newline (String.append "src/x.py"
     (String newline (String.append "bob" (String newline "src/x.py"))))))) [] !! "src/x.py" = Some 2)
    by (vm_compute; reflexivity).
  split; [exact H |]. exact (proj1 (author_count_positive _ [] _ _ H)).
Defined.

End HistoryExtra2.
(* ------------------------------------------------------------------ *)
(** ** Further properties of [calculate_hotspots] *)

Section ScorerExtra.
Import Scorer.

Lemma score_all_total revs loc churn auths mr (common : list string) :
  mr <> 0 -> (forall f v, revs !! f = Some v -> 0 <= v <= mr) ->
  (forall f, f ∈ common -> is_Some (revs !! f) /\ is_Some (loc !! f)) ->
  exists hs, score_all revs loc churn auths mr (max_values loc) common = Some hs.
Proof.
  intros Hmr Hv. induction common as [|f rest IH]; intros Hc; simpl; [by eexists |].
  destruct (Hc f ltac:(by left)) as [[rc Hrc] [ln Hln]].
  destruct IH as [hs Hhs]; [intros f' Hf'; apply Hc; by right |].
  rewrite Hhs.
  assert (Hso : exists o, score_file revs loc churn auths mr (max_values loc) f = Some o).
  { unfold score_file. rewrite Hrc, Hln.
    destruct (Z.ltb_spec ln 10) as [|Hge]; [by eexists |].
    pose proof (max_values_ge loc f ln Hln).
    destruct (Hv f rc Hrc).
    destruct (py_div_total rc mr) as [nr ->]; [lia | lia | done |].
    destruct (py_div_total ln (max_values loc)) as [nl ->]; [lia | lia | lia |].
    by eexists. }
  destruct Hso as [o ->]. by eexists.
Qed.

Lemma revision_max_nonzero (output : option string) (exclusions : list string) :
  max_values (History.get_revision_frequency output exclusions) <> 0.
Proof.
  set (revs := History.get_revision_frequency output exclusions).
  destruct (decide (revs = ∅)) as [->|Hne]; [rewrite max_values_empty; lia |].
  destruct (max_values_attained revs Hne) as [k Hk].
  pose proof (revision_frequency_pos output exclusions k _ Hk). lia.
Qed.

Lemma revision_values_bounded (output : option string) (exclusions : list string) (f : string) (v : Z) :
  History.get_revision_frequency output exclusions !! f = Some v ->
  0 <= v <= max_values (History.get_revision_frequency output exclusions).
Proof.
  intros Hv. pose proof (revision_frequency_pos _ _ _ _ Hv).
  pose proof (max_values_ge _ _ _ Hv). lia.
Qed.

(** On the maps of [get_revision_frequency], whatever the line counts,
    [calculate_hotspots] always returns: no [ZeroDivisionError], no
    [OverflowError] and no [KeyError], in every iteration order of the
    intersection. *)
Theorem calculate_hotspots_total (output : option string) (exclusions : list string)
    (loc : gmap string Z) churn auths (common : list string) :
  common_files_order (History.get_revision_frequency output exclusions) loc common ->
  exists hs, calculate_hotspots (History.get_revision_frequency output exclusions) loc churn auths common
             = Some hs.
Proof.
  intros [_ Hc]. unfold calculate_hotspots.
  destruct (score_all_total (History.get_revision_frequency output exclusions) loc churn auths
              _ common (revision_max_nonzero output exclusions)
              (revision_values_bounded output exclusions)) as [hs ->];
    [intros f Hf; by apply Hc |].
  by eexists.
Qed.

Lemma calculate_hotspots_total_witness :
  common_files_order (History.get_revision_frequency (Some "a.py") []) (<["a.py" := 0]> ∅) ["a.py"]
  /\ exists hs, calculate_hotspots (History.get_revision_frequency (Some "a.py") [])
                  (<["a.py" := 0]> ∅) None None ["a.py"] = Some hs.
Proof.
  assert (H : common_files_order (History.get_revision_frequency (Some "a.py") [])
                (<["a.py" := 0]> ∅) ["a.py"]).
  { assert (Hr : History.get_revision_frequency (Some "a.py") [] = <["a.py" := 1]> ∅)
      by (vm_compute; reflexivity).
    rewrite Hr. split; [repeat constructor; set_solver |].
    intros f. rewrite list_elem_of_singleton. split.
    - intros ->. rewrite !lookup_insert_eq. split; by eexists.
    - intros [[v Hv] _]. destruct (String.eqb_spec f "a.py") as [|Hne]; [done |].
      rewrite lookup_insert_ne in Hv by congruence.
      by rewrite lookup_empty in Hv. }
  split; [exact H |]. exact (calculate_hotspots_total (Some "a.py") [] _ None None _ H).
Defined.

(** Stability of the sort: the entries with a given score keep their
    relative order. *)
Definition score_is (s : Q) (e : entry) : bool := Qeq_bool (hotspot_score e) s.

Lemma filter_all_false {A} (p : A -> bool) (l : list A) :
  (forall y, In y l -> p y = false) -> List.filter p l = [].
Proof. induction l as [|x r IH]; intros H; simpl; [done |]. rewrite H by (by left). apply IH; auto with datatypes. Qed.

Lemma score_ge_trans : Transitive score_ge.
Proof. intros a b c Hab Hbc. unfold score_ge in *. eapply Qle_trans; eassumption. Qed.

Lemma insert_desc_filter (s : Q) (e : entry) (l : list entry) :
  StronglySorted score_ge l ->
  List.filter (score_is s) (insert_desc e l)
  = List.filter (score_is s) l ++ (if score_is s e then [e] else []).
Proof.
  induction l as [|x r IH]; intros Hs; simpl; [by destruct (score_is s e) |].
  apply StronglySorted_inv in Hs as [Hr Hall].
  destruct (Qle_bool (hotspot_score e) (hotspot_score x)) eqn:Hle; simpl.
  - rewrite IH by done. by destruct (score_is s x).
  - assert (Hlt : (hotspot_score x < hotspot_score e)%Q).
    { apply Qnot_le_lt. intros H. apply Qle_bool_iff in H. congruence. }
    destruct (score_is s e) eqn:He.
    + unfold score_is in He. apply Qeq_bool_iff in He.
      assert (Hx : score_is s x = false).
      { unfold score_is. apply not_true_iff_false. intros H. apply Qeq_bool_iff in H.
        rewrite H, <- He in Hlt. by apply Qlt_irrefl in Hlt. }
      rewrite Hx, filter_all_false; [reflexivity |].
      intros y Hy. unfold score_is. apply not_true_iff_false. intros H.
      apply Qeq_bool_iff in H.
      pose proof (proj1 (List.Forall_forall _ _) Hall y Hy) as Hyx. unfold score_ge in Hyx.
      rewrite H, <- He in Hyx. apply (Qlt_irrefl (hotspot_score e)). eapply Qle_lt_trans; eassumption.
    + by rewrite app_nil_r.
Qed.

Lemma sort_desc_filter (s : Q) (l : list entry) :
  List.filter (score_is s) (sort_desc l) = List.filter (score_is s) l.
Proof.
  unfold sort_desc.
  assert (H : forall acc, StronglySorted score_ge acc ->
            List.filter (score_is s) (fold_left (fun acc e => insert_desc e acc) l acc)
            = List.filter (score_is s) acc ++ List.filter (score_is s) l).
  { induction l as [|x l IH]; intros acc Hacc; simpl; [by rewrite app_nil_r |].
    rewrite IH.
    - rewrite insert_desc_filter by done. rewrite <- app_assoc. by destruct (score_is s x).
    - apply Sorted_StronglySorted; [exact score_ge_trans |].
      apply insert_desc_sorted. by apply StronglySorted_Sorted. }
  rewrite H; [done | constructor].
Qed.

Lemma sublist_map_filter {A B} (f : A -> B) (p : A -> bool) (l : list A) :
  sublist (map f (List.filter p l)) (map f l).
Proof.
  induction l as [|x r IH]; simpl; [constructor |].
  destruct (p x); simpl; [by apply sublist_skip | by apply sublist_cons].
Qed.

Lemma score_all_sublist revs loc churn auths mr ml (common : list string) (hs : list entry) :
  score_all revs loc churn auths mr ml common = Some hs -> sublist (map file hs) common.
Proof.
  revert hs. induction common as [|f rest IH]; intros hs H; simpl in H.
  - injection H as <-. constructor.
  - destruct (score_file _ _ _ _ _ _ f) as [[e|]|] eqn:Hf; [| | discriminate];
      destruct (score_all _ _ _ _ _ _ rest) as [hs'|] eqn:Hr; try discriminate;
      injection H as <-; simpl.
    + destruct (score_file_Some _ _ _ _ _ _ _ _ Hf) as (? & ? & ? & ? & _ & _ & _ & _ & _ & Hfile & _).
      rewrite Hfile. apply sublist_skip. by apply IH.
    + apply sublist_cons. by apply IH.
Qed.

Lemma sublist_trans' {A} (l1 l2 l3 : list A) :
  sublist l1 l2 -> sublist l2 l3 -> sublist l1 l3.
Proof.
  intros H12 H23. revert l1 H12. induction H23 as [|x l2 l3 H IH|x l2 l3 H IH]; intros l1 H12.
  - done.
  - inversion H12; subst; [apply sublist_skip | apply sublist_cons]; auto.
  - apply sublist_cons. auto.
Qed.

(** The files of the entries with a given score appear in the result in
    the iteration order of the intersection: the sort never reorders ties. *)
Theorem hotspot_ties_in_common_order revs loc churn auths (common : list string)
    (hs : list entry) (s : Q) :
  calculate_hotspots revs loc churn auths common = Some hs ->
  sublist (map file (List.filter (score_is s) hs)) common.
Proof.
  intros H. destruct (calculate_hotspots_inv _ _ _ _ _ _ H) as (hs0 & H0 & ->).
  rewrite sort_desc_filter.
  eapply sublist_trans'; [apply sublist_map_filter | exact (score_all_sublist _ _ _ _ _ _ _ _ H0)].
Qed.

Definition ex_tie_revs : gmap string Z := <["b.py" := 1]> (<["a.py" := 1]> ∅).
Definition ex_tie_loc : gmap string Z := <["b.py" := 30]> (<["a.py" := 30]> ∅).

Definition ex_tie_hs : list entry :=
  Eval vm_compute in default [] (calculate_hotspots ex_tie_revs ex_tie_loc None None ["b.py"; "a.py"]).

Lemma hotspot_ties_in_common_order_witness :
  option_map (map file) (calculate_hotspots ex_tie_revs ex_tie_loc None None ["b.py"; "a.py"])
    = Some ["b.py"; "a.py"]
  /\ sublist ["b.py"; "a.py"] ["b.py"; "a.py"].
Proof.
  split; [vm_compute; reflexivity |].
  assert (H : calculate_hotspots ex_tie_revs ex_tie_loc None None ["b.py"; "a.py"]
              = Some ex_tie_hs)
    by (vm_compute; reflexivity).
  pose proof (hotspot_ties_in_common_order _ _ _ _ _ _ 1%Q H) as Hs.
  vm_compute in Hs. exact Hs.
Defined.

End ScorerExtra.
(* ------------------------------------------------------------------ *)
(** ** Properties of [count_lines_of_code] *)

Section LocExtra.
Import PyStr Exclude Loc.

(** A tracked path is counted when it is not empty, not excluded and
    readable; its count is the number of lines of its text. *)
Lemma loc_fold (exclusions : list string) (fs : string -> option string) (k : string) (ls : list string) :
  forall acc,
  fold_left (loc_step exclusions fs) ls acc !! k
  = if negb (String.eqb k "") && negb (should_exclude k exclusions)
       && existsb (fun raw => String.eqb (strip raw) k) ls
    then match fs k with Some t => Some (line_count t) | None => acc !! k end
    else acc !! k.
Proof.
  induction ls as [|l ls IH]; intros acc; [by simpl; rewrite andb_false_r |].
  cbn [fold_left existsb]. rewrite IH.
  assert (Hstep : loc_step exclusions fs acc l !! k
                  = if String.eqb (strip l) k && negb (String.eqb k "") && negb (should_exclude k exclusions)
                    then match fs k with Some t => Some (line_count t) | None => acc !! k end
                    else acc !! k).
  { unfold loc_step; cbv zeta.
    destruct (String.eqb_spec (strip l) k) as [<-|Hne]; simpl.
    - destruct (String.eqb (strip l) ""); [done |]. simpl.
      destruct (should_exclude (strip l) exclusions); [done |]. simpl.
      destruct (fs (strip l)); [by rewrite lookup_insert_eq | done].
    - destruct (String.eqb (strip l) ""); [done |].
      destruct (should_exclude (strip l) exclusions); [done |].
      destruct (fs (strip l)); [by rewrite lookup_insert_ne | done]. }
  rewrite Hstep.
  destruct (String.eqb (strip l) k), (String.eqb k ""), (should_exclude k exclusions),
    (existsb _ ls), (fs k); done.
Qed.

(** [count_lines_of_code] maps exactly the tracked paths that are not
    empty, not excluded and readable, each to the line count of its text. *)
Theorem count_lines_of_code_spec (output : string) (exclusions : list string)
    (fs : string -> option string) (k : string) :
  count_lines_of_code (Some output) exclusions fs !! k
  = if negb (String.eqb k "") && negb (should_exclude k exclusions)
       && existsb (fun raw => String.eqb (strip raw) k) (split History.newline output)
    then line_count <$> fs k
    else None.
Proof.
  simpl. rewrite loc_fold, lookup_empty.
  destruct (_ && _ && _); [by destruct (fs k) | done].
Qed.

(** The absence of a character from a list. *)
Definition lacks (c : ascii) (l : list ascii) : Prop := forall x, In x l -> x <> c.

Lemma lacks_of_has_char (c : ascii) (s : string) :
  has_char c s = false -> lacks c (list_ascii_of_string s).
Proof.
  induction s as [|d r IH]; simpl; [by intros _ x [] |].
  destruct (ascii_dec d c) as [|Hdc]; [discriminate |].
  intros H x [<-|Hx]; [done | exact (IH H x Hx)].
Qed.

Lemma un_plain (l rest : list ascii) :
  lacks cr l -> universal_newlines (l ++ rest) = l ++ universal_newlines rest.
Proof.
  induction l as [|c l IH]; intros Hl; simpl; [done |].
  destruct (ascii_dec c cr) as [Hc|_]; [by destruct (Hl c (or_introl eq_refl)) |].
  rewrite IH; [done | intros x Hx; apply Hl; by right].
Qed.

Lemma readlines_line (l rest : list ascii) :
  lacks History.newline l ->
  readlines (l ++ History.newline :: rest) = (l ++ [History.newline]) :: readlines rest.
Proof.
  induction l as [|c l IH]; intros Hl; simpl; [done |].
  destruct (ascii_dec c History.newline) as [Hc|_]; [by destruct (Hl c (or_introl eq_refl)) |].
  rewrite IH; [done | intros x Hx; apply Hl; by right].
Qed.

Lemma readlines_plain (l : list ascii) :
  lacks History.newline l -> readlines l = match l with [] => [] | _ => [l] end.
Proof.
  induction l as [|c l IH]; intros Hl; simpl; [done |].
  destruct (ascii_dec c History.newline) as [Hc|_]; [by destruct (Hl c (or_introl eq_refl)) |].
  rewrite IH by (intros x Hx; apply Hl; by right). by destruct l.
Qed.

(** A line of text: no ['\n'] and no ['\r']. *)
Definition eol_free (s : string) : Prop :=
  has_char History.newline s = false /\ has_char cr s = false.

(** The text made of the lines [ls], each followed by [term], and then [last]. *)
Definition terminated (term last : string) (ls : list string) : string :=
  fold_right (fun l acc => String.append l (String.append term acc)) last ls.

Lemma terminated_head (last : string) (ls : list string) :
  eol_free last -> (forall l, l ∈ ls -> eol_free l) ->
  forall c r, list_ascii_of_string (terminated (String cr EmptyString) last ls) = c :: r ->
  c <> History.newline.
Proof.
  intros [Hlast _]. induction ls as [|l ls IH]; intros Hls c r H; simpl in H.
  - apply lacks_of_has_char in Hlast. rewrite H in Hlast. apply Hlast. by left.
  - rewrite list_ascii_app in H.
    destruct (Hls l ltac:(by left)) as [Hl _]. apply lacks_of_has_char in Hl.
    destruct (list_ascii_of_string l) as [|d l'] eqn:Hd; simpl in H.
    + injection H as <- _. done.
    + injection H as <- _. apply Hl. by left.
Qed.

(** [len(f.readlines())] counts one line per line terminator, whether
    the text ends its lines with ['\n'], ['\r\n'] or ['\r'], plus one for a
    last line without a terminator. *)
Theorem line_count_terminated (term last : string) (ls : list string) :
  term ∈ [String History.newline EmptyString; String cr (String History.newline EmptyString);
          String cr EmptyString] ->
  eol_free last -> (forall l, l ∈ ls -> eol_free l) ->
  line_count (terminated term last ls)
  = Z.of_nat (length ls) + (if String.eqb last EmptyString then 0 else 1).
Proof.
  intros Hterm Hlast Hls. unfold line_count.
  enough (H : length (readlines (universal_newlines (list_ascii_of_string (terminated term last ls))))
              = (length ls + (if String.eqb last EmptyString then 0 else 1))%nat)
    by (rewrite H; destruct (String.eqb last EmptyString); lia).
  induction ls as [|l ls IH]; simpl.
  - destruct Hlast as [Hn Hc]. apply lacks_of_has_char in Hn, Hc.
    rewrite <- (app_nil_r (list_ascii_of_string last)), un_plain by done.
    simpl. rewrite app_nil_r, readlines_plain by done.
    destruct last; simpl; done.
  - destruct (Hls l ltac:(by left)) as [Hn Hc]. apply lacks_of_has_char in Hn, Hc.
    rewrite !list_ascii_app, un_plain by done.
    assert (Hu : universal_newlines (list_ascii_of_string term
                   ++ list_ascii_of_string (terminated term last ls))
                 = History.newline :: universal_newlines (list_ascii_of_string (terminated term last ls))).
    { apply elem_of_cons in Hterm as [->|Hterm]; [reflexivity |].
      apply elem_of_cons in Hterm as [->|Hterm]; [reflexivity |].
      apply list_elem_of_singleton in Hterm as ->. simpl.
      destruct (list_ascii_of_string (terminated _ last ls)) as [|d r] eqn:Hr; [done |].
      destruct (ascii_dec d History.newline) as [Hd|_]; [| done].
      exfalso. refine (terminated_head last ls Hlast _ d r Hr Hd).
      intros l' Hl'. apply Hls. by right. }
    rewrite Hu, readlines_line by done. simpl. rewrite IH; [done |].
    intros l' Hl'. apply Hls. by right.
Qed.

Lemma line_count_terminated_witness :
  line_count (terminated (String cr (String History.newline EmptyString)) "tail"
                ["import os"; ""; "print(1)"]) = 4.
Proof.
  rewrite line_count_terminated.
  - reflexivity.
  - right. by left.
  - split; reflexivity.
  - intros l Hl. repeat (apply elem_of_cons in Hl as [->|Hl]; [split; reflexivity |]).
    by apply elem_of_nil in Hl.
Defined.

End LocExtra.

(* ------------------------------------------------------------------ *)
(** ** [save_cache] followed by [load_cache] *)

Section CacheExtra.
Import Cache.

Lemma nodup_keys_unique (d : list (string * json)) (k : string) (v1 v2 : json) :
  NoDup (map fst d) -> In (k, v1) d -> In (k, v2) d -> v1 = v2.
Proof.
  induction d as [|[k0 x] r IH]; simpl; [done |].
  intros Hnd H1 H2. apply NoDup_cons in Hnd as [Hk Hnd].
  destruct H1 as [H1|H1], H2 as [H2|H2].
  - congruence.
  - injection H1 as -> ->. exfalso. apply Hk. apply list_elem_of_In, in_map_iff. by exists (k, v2).
  - injection H2 as -> ->. exfalso. apply Hk. apply list_elem_of_In, in_map_iff. by exists (k, v1).
  - eauto.
Qed.

Lemma get_in (d : list (string * json)) (k : string) (v : json) :
  NoDup (map fst d) -> In (k, v) d -> get d k = v.
Proof.
  intros Hnd Hin. unfold get.
  destruct (List.find (fun kv => String.eqb kv.1 k) (rev d)) as [[k' v']|] eqn:Hf.
  - apply List.find_some in Hf as [Hin' Heq]. simpl in Heq. apply String.eqb_eq in Heq as ->.
    apply in_rev in Hin'. exact (nodup_keys_unique d k v' v Hnd Hin' Hin).
  - exfalso. pose proof (List.find_none _ _ Hf (k, v) (proj1 (in_rev d _) Hin)) as H.
    simpl in H. by rewrite String.eqb_refl in H.
Qed.

Lemma get_notin (d : list (string * json)) (k : string) :
  (forall v, ~ In (k, v) d) -> get d k = JNull.
Proof.
  intros Hn. unfold get.
  destruct (List.find (fun kv => String.eqb kv.1 k) (rev d)) as [[k' v']|] eqn:Hf; [| done].
  apply List.find_some in Hf as [Hin' Heq]. simpl in Heq. apply String.eqb_eq in Heq as ->.
  apply in_rev in Hin'. by destruct (Hn v').
Qed.

Lemma dict_set_in (k : string) (v : json) (d : list (string * json)) : In (k, v) (dict_set k v d).
Proof.
  induction d as [|[k0 x] r IH]; simpl; [by left |].
  destruct (String.eqb_spec k0 k) as [->|_]; [by left | by right].
Qed.

Lemma dict_set_other (k k' : string) (v x : json) (d : list (string * json)) :
  k' <> k -> In (k', x) (dict_set k v d) <-> In (k', x) d.
Proof.
  intros Hne. induction d as [|[k0 y] r IH]; simpl.
  - split; [intros [H|[]]; congruence | done].
  - destruct (String.eqb_spec k0 k) as [->|_]; simpl.
    + split; intros [H|H]; try (right; done); congruence.
    + by rewrite IH.
Qed.

Lemma dict_set_keys (k : string) (v : json) (d : list (string * json)) :
  map fst (dict_set k v d) = map fst d
  \/ (map fst (dict_set k v d) = map fst d ++ [k] /\ ~ In k (map fst d)).
Proof.
  induction d as [|[k0 x] r IH]; simpl; [right; split; [done | by intros []] |].
  destruct (String.eqb_spec k0 k) as [->|Hne]; simpl; [by left |].
  destruct IH as [->|[-> Hn]]; [by left | right; split; [done |]].
  intros [H|H]; [congruence | done].
Qed.

Lemma dict_set_nodup (k : string) (v : json) (d : list (string * json)) :
  NoDup (map fst d) -> NoDup (map fst (dict_set k v d)).
Proof.
  intros Hnd. destruct (dict_set_keys k v d) as [->|[-> Hn]]; [done |].
  apply NoDup_app. split; [done |]. split; [| apply NoDup_singleton].
  intros x Hx Hx'. apply list_elem_of_singleton in Hx' as ->. apply Hn. by apply list_elem_of_In.
Qed.

Lemma get_dict_set_eq (k : string) (v : json) (d : list (string * json)) :
  NoDup (map fst d) -> get (dict_set k v d) k = v.
Proof. intros Hnd. apply get_in; [by apply dict_set_nodup | apply dict_set_in]. Qed.

Lemma get_dict_set_ne (k k' : string) (v : json) (d : list (string * json)) :
  NoDup (map fst d) -> k' <> k -> get (dict_set k v d) k' = get d k'.
Proof.
  intros Hnd Hne.
  destruct (List.find (fun kv => String.eqb kv.1 k') d) as [[k1 x]|] eqn:Hf.
  - apply List.find_some in Hf as [Hx Heq]. simpl in Heq. apply String.eqb_eq in Heq as ->.
    rewrite (get_in d k' x Hnd Hx). apply get_in; [by apply dict_set_nodup |].
    by apply dict_set_other.
  - assert (Hn : forall x, ~ In (k', x) d).
    { intros x Hx. pose proof (List.find_none _ _ Hf _ Hx) as H. simpl in H.
      by rewrite String.eqb_refl in H. }
    rewrite !get_notin; [done | exact Hn |].
    intros x Hx. apply (Hn x). by apply (dict_set_other k k' v x d Hne).
Qed.

Lemma py_eq_to_json (a b : option string) : py_eq a (to_json b) = bool_decide (a = b).
Proof.
  destruct a as [s|], b as [t|]; simpl; try done.
  destruct (String.eqb_spec s t) as [->|Hne].
  - by rewrite bool_decide_eq_true_2.
  - rewrite bool_decide_eq_false_2; [done | congruence].
Qed.

(** What [save_cache] writes, [load_cache] reads back: valid exactly when
    the current HEAD and commit count are the saved ones, with every other
    member of [data] unchanged.  [data] is a dict: its keys are distinct. *)
Theorem save_cache_round_trip (data : list (string * json)) (head count : option string)
    (cached_at cache_key : string) (head' count' : option string) :
  NoDup (map fst data) ->
  load_cache (CacheDoc (save_cache data head count cached_at cache_key)) head' count'
    = (Some (save_cache data head count cached_at cache_key),
       bool_decide (head' = head) && bool_decide (count' = count))
  /\ forall k, k ∉ ["git_head"; "commit_count"; "cached_at"; "cache_key"] ->
     get (save_cache data head count cached_at cache_key) k = get data k.
Proof.
  intros Hnd. unfold save_cache.
  assert (N1 := dict_set_nodup "git_head" (to_json head) data Hnd).
  assert (N2 := dict_set_nodup "commit_count" (to_json count) _ N1).
  assert (N3 := dict_set_nodup "cached_at" (JStr cached_at) _ N2).
  split.
  - unfold load_cache.
    rewrite (get_dict_set_ne "cache_key" "git_head") by (done || discriminate).
    rewrite (get_dict_set_ne "cached_at" "git_head") by (done || discriminate).
    rewrite (get_dict_set_ne "commit_count" "git_head") by (done || discriminate).
    rewrite get_dict_set_eq by done.
    rewrite (get_dict_set_ne "cache_key" "commit_count") by (done || discriminate).
    rewrite (get_dict_set_ne "cached_at" "commit_count") by (done || discriminate).
    rewrite get_dict_set_eq by done.
    rewrite !py_eq_to_json.
    by destruct (bool_decide (head' = head) && bool_decide (count' = count)).
  - intros k Hk.
    assert (H1 : k <> "git_head") by (intros ->; apply Hk; by left).
    assert (H2 : k <> "commit_count") by (intros ->; apply Hk; right; by left).
    assert (H3 : k <> "cached_at") by (intros ->; apply Hk; right; right; by left).
    assert (H4 : k <> "cache_key") by (intros ->; apply Hk; right; right; right; by left).
    rewrite !get_dict_set_ne by done. done.
Qed.

Lemma save_cache_round_trip_witness :
  NoDup (map fst [("repository", JStr "/repo"); ("hotspots", JOther)])
  /\ snd (load_cache (CacheDoc (save_cache [("repository", JStr "/repo"); ("hotspots", JOther)]
            (Some "9f2c") (Some "41") "2026-01-01T00:00:00" "k1")) (Some "9f2c") (Some "41")) = true.
Proof.
  assert (Hnd : NoDup (map fst [("repository", JStr "/repo"); ("hotspots", JOther)])).
  { simpl. apply NoDup_cons. split; [| apply NoDup_singleton].
    rewrite list_elem_of_singleton. discriminate. }
  split; [exact Hnd |].
  rewrite (proj1 (save_cache_round_trip _ (Some "9f2c") (Some "41") "2026-01-01T00:00:00" "k1"
                    (Some "9f2c") (Some "41") Hnd)).
  reflexivity.
Defined.

End CacheExtra.
(* ------------------------------------------------------------------ *)
(** ** Completeness of [build_hierarchy] *)

Section HierarchyExtra.
Import PyStr Scorer Hierarchy.

(** The file leaves below a dict node, with their names from the top. *)
Fixpoint dleaves (anc : list string) (n : dnode) : list (list string * leaf_info) :=
  match n with
  | DLeaf i => [(anc ++ [leaf_name i], i)]
  | DDir nm ch =>
      (fix go (l : list (string * dnode)) : list (list string * leaf_info) :=
         match l with
         | [] => []
         | (_, c) :: r => dleaves (anc ++ [nm]) c ++ go r
         end) ch
  end.

Definition kleaves (anc : list string) (ch : list (string * dnode)) : list (list string * leaf_info) :=
  concat (map (fun kc => dleaves anc kc.2) ch).

(** The leaf [build_hierarchy] makes for an entry. *)
Definition leaf_entry (e : entry) : list string * leaf_info :=
  (split "/"%char (file e), leaf_of (default EmptyString (last (split "/"%char (file e)))) e).

(** No path splits into a proper continuation of another's segments,
    and no two paths split alike. *)
Definition prefix_free (L : list (list string)) : Prop :=
  NoDup L /\ forall a b, a ∈ L -> b ∈ L -> a `prefix_of` b -> a = b.

Lemma dleaves_dir (anc : list string) (nm : string) (ch : list (string * dnode)) :
  dleaves anc (DDir nm ch) = kleaves (anc ++ [nm]) ch.
Proof.
  unfold kleaves. simpl. induction ch as [|[k c] r IH]; simpl; [done |]. by rewrite IH.
Qed.

Lemma hleaves_dleaves (n : dnode) : forall anc, hleaves anc (convert_to_list n) = dleaves anc n.
Proof.
  induction n as [i | nm ch IHc] using dnode_ind_deep; intros anc; [done |].
  rewrite hleaves_convert_dir, dleaves_dir. unfold kleaves. rewrite map_map. f_equal.
  apply map_ext_in. intros [k c] Hkc. exact (IHc k c Hkc _).
Qed.

Lemma tree_leaves_kleaves (ch : list (string * dnode)) :
  tree_leaves (convert_to_list (DDir "root" ch)) = kleaves [] ch.
Proof.
  rewrite tree_leaves_convert. unfold kleaves. rewrite map_map. f_equal.
  apply map_ext. intros [k c]. apply hleaves_dleaves.
Qed.

Lemma dleaves_path (n : dnode) :
  forall anc ps j, In (ps, j) (dleaves anc n) -> exists q, ps = anc ++ node_name n :: q.
Proof.
  induction n as [i | nm ch IHc] using dnode_ind_deep; intros anc ps j Hin.
  - destruct Hin as [H|[]]. injection H as <- <-. by exists [].
  - rewrite dleaves_dir in Hin. unfold kleaves in Hin.
    apply in_concat in Hin as (l & Hl & Hx).
    apply in_map_iff in Hl as ([k c] & <- & Hkc).
    destruct (IHc k c Hkc _ _ _ Hx) as [q ->].
    exists (node_name c :: q). simpl. by rewrite <- app_assoc.
Qed.

Lemma kleaves_In (anc : list string) (ch : list (string * dnode)) (k : string) (c : dnode) ps j :
  In (k, c) ch -> In (ps, j) (dleaves anc c) -> In (ps, j) (kleaves anc ch).
Proof.
  intros Hkc Hx. unfold kleaves. apply in_concat. exists (dleaves anc c).
  split; [| done]. apply in_map_iff. by exists (k, c).
Qed.

Lemma assoc_get_In (k : string) (ch : list (string * dnode)) (c : dnode) :
  assoc_get k ch = Some c -> In (k, c) ch.
Proof.
  induction ch as [|[k0 c0] r IH]; simpl; [discriminate |].
  destruct (String.eqb_spec k0 k) as [->|_]; [intros H; injection H as ->; by left |].
  intros H. right. auto.
Qed.

Lemma kleaves_set_new (anc : list string) (k : string) (v : dnode) (ch : list (string * dnode)) :
  assoc_get k ch = None -> kleaves anc (assoc_set k v ch) = kleaves anc ch ++ dleaves anc v.
Proof.
  unfold kleaves. induction ch as [|[k0 c0] r IH]; simpl; [by rewrite app_nil_r |].
  destruct (String.eqb_spec k0 k) as [_|_]; [discriminate |].
  intros H. simpl. rewrite IH by done. by rewrite app_assoc.
Qed.

Lemma kleaves_set_old (anc : list string) (k : string) (v old : dnode) (ch : list (string * dnode)) :
  assoc_get k ch = Some old ->
  kleaves anc (assoc_set k v ch) ++ dleaves anc old ≡ₚ kleaves anc ch ++ dleaves anc v.
Proof.
  unfold kleaves. induction ch as [|[k0 c0] r IH]; simpl; [discriminate |].
  destruct (String.eqb_spec k0 k) as [->|_].
  - intros H. injection H as ->. simpl.
    rewrite (Permutation_app_comm (dleaves anc v ++ _)), <- app_assoc.
    apply Permutation_app_head. apply Permutation_app_comm.
  - intros H. simpl. rewrite <- !app_assoc. apply Permutation_app_head. auto.
Qed.

Lemma insert_leaf_leaves (dirs : list string) :
  forall anc fname i ch,
  kids_ok (dnode_ok (fun _ _ => True) anc) ch ->
  leaf_name i = fname ->
  (forall ps j, In (ps, j) (kleaves anc ch) ->
     ~ ps `prefix_of` (anc ++ dirs ++ [fname]) /\ ~ (anc ++ dirs ++ [fname]) `prefix_of` ps) ->
  exists ch', insert_leaf dirs fname (DLeaf i) ch = Some ch'
    /\ kleaves anc ch' ≡ₚ kleaves anc ch ++ [(anc ++ dirs ++ [fname], i)].
Proof.
  induction dirs as [|part rest IH]; intros anc fname i ch Hok Hname Hpf; simpl.
  - eexists. split; [reflexivity |].
    destruct (assoc_get fname ch) as [old|] eqn:Hg.
    + destruct (assoc_get_ok _ _ _ _ Hok Hg) as [Hn _].
      assert (Hnil : dleaves anc old = []).
      { destruct (dleaves anc old) as [|[ps j] r] eqn:Hd; [done |].
        assert (Hin : In (ps, j) (dleaves anc old)) by (rewrite Hd; by left).
        destruct (dleaves_path old anc ps j Hin) as [q ->].
        destruct (Hpf _ j (kleaves_In _ _ _ _ _ _ (assoc_get_In _ _ _ Hg) Hin)) as [_ H].
        exfalso. apply H. exists q. by rewrite Hn, <- app_assoc. }
      pose proof (kleaves_set_old anc fname (DLeaf i) old ch Hg) as Hp.
      rewrite Hnil, app_nil_r in Hp. rewrite Hp. simpl. by rewrite Hname.
    + rewrite kleaves_set_new by done. simpl. by rewrite Hname.
  - destruct (assoc_get part ch) as [[nm ch0|li]|] eqn:Hg.
    + destruct (assoc_get_ok _ _ _ _ Hok Hg) as [Hn Hok0]. simpl in Hn, Hok0. subst nm.
      destruct (IH (anc ++ [part]) fname i ch0 Hok0 Hname) as (sub & Hsub & Hperm).
      { intros ps j Hin. rewrite <- app_assoc. simpl.
        apply Hpf with j. eapply kleaves_In; [exact (assoc_get_In _ _ _ Hg) |].
        by rewrite dleaves_dir. }
      rewrite Hsub. eexists. split; [reflexivity |].
      pose proof (kleaves_set_old anc part (DDir part sub) (DDir part ch0) ch Hg) as Hp.
      rewrite !dleaves_dir, Hperm in Hp.
      apply (Permutation_app_inv_r (kleaves (anc ++ [part]) ch0)).
      rewrite Hp, <- !app_assoc. apply Permutation_app_head.
      rewrite Permutation_app_comm. reflexivity.
    + exfalso. destruct (assoc_get_ok _ _ _ _ Hok Hg) as [Hn _]. simpl in Hn.
      destruct (Hpf (anc ++ [part]) li) as [H _].
      * eapply kleaves_In; [exact (assoc_get_In _ _ _ Hg) |]. simpl. rewrite Hn. by left.
      * apply H. exists (rest ++ [fname]). by rewrite <- app_assoc.
    + destruct (IH (anc ++ [part]) fname i [] I Hname) as (sub & Hsub & Hperm).
      { intros ps j []. }
      rewrite Hsub. eexists. split; [reflexivity |].
      rewrite kleaves_set_new by done. rewrite dleaves_dir, Hperm.
      simpl. by rewrite <- app_assoc.
Qed.

Lemma prefix_free_perm (L1 L2 : list (list string)) : L1 ≡ₚ L2 -> prefix_free L2 -> prefix_free L1.
Proof.
  intros Hp [Hnd Hpre]. split; [by rewrite Hp |].
  intros a b Ha Hb. rewrite Hp in Ha, Hb. auto.
Qed.

Lemma fold_add_entry_leaves (hs : list entry) :
  forall ch,
  kids_ok (dnode_ok (fun _ _ => True) []) ch ->
  prefix_free (map fst (kleaves [] ch) ++ map (fun e => split "/"%char (file e)) hs) ->
  exists ch', fold_left add_entry hs (Some ch) = Some ch'
    /\ kleaves [] ch' ≡ₚ kleaves [] ch ++ map leaf_entry hs.
Proof.
  induction hs as [|e hs IH]; intros ch Hok [Hnd Hpre]; simpl.
  - eexists. split; [reflexivity |]. by rewrite app_nil_r.
  - set (segs := split "/"%char (file e)).
    set (fname := default EmptyString (last segs)).
    assert (Hsegs : removelast segs ++ [fname] = segs)
      by (symmetry; apply removelast_last, split_not_nil).
    destruct (insert_leaf_leaves (removelast segs) [] fname (leaf_of fname e) ch Hok eq_refl)
      as (ch1 & Hins & Hperm).
    { intros ps j Hin. simpl. rewrite Hsegs.
      assert (Hps : ps ∈ map fst (kleaves [] ch)).
      { apply list_elem_of_In, in_map_iff. by exists (ps, j). }
      assert (Hne : ps <> segs).
      { intros ->. apply NoDup_app in Hnd as (_ & Hdis & _). apply (Hdis segs Hps). by left. }
      split; intros Hp; apply Hne.
      - apply Hpre; [by apply elem_of_app; left | apply elem_of_app; right; by left | done].
      - symmetry. apply Hpre; [apply elem_of_app; right; by left | by apply elem_of_app; left | done]. }
    rewrite Hins.
    assert (Hok1 : kids_ok (dnode_ok (fun _ _ => True) []) ch1)
      by (eapply insert_leaf_ok; [exact Hok | exact Hins | reflexivity | exact I]).
    simpl in Hperm. rewrite Hsegs in Hperm.
    destruct (IH ch1 Hok1) as (ch' & Hf & Hp').
    { apply (prefix_free_perm _ (map fst (kleaves [] ch) ++ map (fun e => split "/"%char (file e)) (e :: hs)));
        [| by split].
      rewrite Hperm, map_app. simpl. by rewrite <- app_assoc. }
    exists ch'. split; [exact Hf |]. rewrite Hp', Hperm. by rewrite <- app_assoc.
Qed.

Lemma str_app_assoc (a b c : string) :
  String.append a (String.append b c) = String.append (String.append a b) c.
Proof. induction a as [|x r IH]; [reflexivity |]. exact (f_equal (String x) IH). Qed.

Lemma join_app (ch : ascii) (a b : list string) :
  a <> [] -> b <> [] ->
  join (String ch EmptyString) (a ++ b)
  = String.append (join (String ch EmptyString) a) (String ch (join (String ch EmptyString) b)).
Proof.
  intros Ha Hb. induction a as [|x [|y r] IH]; [done | |].
  - simpl. destruct b as [|z b']; [done |]. reflexivity.
  - change ((x :: y :: r) ++ b) with (x :: ((y :: r) ++ b)).
    change (join (String ch EmptyString) (x :: (y :: r) ++ b))
      with (String.append x (String.append (String ch EmptyString) (join (String ch EmptyString) ((y :: r) ++ b)))).
    change (join (String ch EmptyString) (x :: y :: r))
      with (String.append x (String.append (String ch EmptyString) (join (String ch EmptyString) (y :: r)))).
    rewrite IH by done. rewrite !str_app_assoc. reflexivity.
Qed.

Lemma NoDup_map_inj {A B} (f : A -> B) (l : list A) :
  (forall x y, f x = f y -> x = y) -> NoDup l -> NoDup (map f l).
Proof.
  intros Hf. induction 1 as [|x l Hx Hl IH]; simpl; constructor; [| done].
  intros Hin. apply list_elem_of_In, in_map_iff in Hin as (y & Hy & Hin).
  apply Hf in Hy as ->. apply Hx. by apply list_elem_of_In.
Qed.

(** When no hotspot path is a directory prefix of another one and no
    path repeats, [build_hierarchy] returns and its tree has exactly one
    leaf per hotspot, at the segments of its path, built from that entry. *)
Theorem hierarchy_complete (hotspots : list entry) :
  NoDup (map file hotspots) ->
  (forall e1 e2 q, e1 ∈ hotspots -> e2 ∈ hotspots ->
     file e2 <> String.append (file e1) (String "/"%char q)) ->
  exists root, build_hierarchy hotspots = Some root
    /\ tree_leaves root ≡ₚ map leaf_entry hotspots.
Proof.
  intros Hnd Hpre. unfold build_hierarchy.
  destruct (fold_add_entry_leaves hotspots [] I) as (ch & Hf & Hp).
  - simpl. split.
    + rewrite <- (map_map file (split "/"%char)).
      apply NoDup_map_inj; [| done].
      intros x y Hxy. rewrite <- (join_split "/"%char x), <- (join_split "/"%char y). by rewrite Hxy.
    + intros a b Ha Hb [k ->].
      apply list_elem_of_In, in_map_iff in Ha as (e1 & Ha & He1).
      apply list_elem_of_In, in_map_iff in Hb as (e2 & Hb & He2).
      destruct k as [|s k']; [by rewrite app_nil_r |].
      exfalso. apply (Hpre e1 e2 (join (String "/"%char EmptyString) (s :: k')));
        [by apply list_elem_of_In | by apply list_elem_of_In |].
      assert (Han : a <> []) by (rewrite <- Ha; apply split_not_nil).
      rewrite <- (join_split "/"%char (file e2)), Hb, (join_app _ _ _ Han) by done.
      rewrite <- Ha, join_split. reflexivity.
  - rewrite Hf. eexists. split; [reflexivity |].
    by rewrite tree_leaves_kleaves, Hp.
Qed.

Lemma hierarchy_complete_witness :
  exists root, build_hierarchy [mk_entry "src/app.py" 3; mk_entry "src/lib/util.py" 2]
                = Some root
    /\ tree_leaves root ≡ₚ map leaf_entry [mk_entry "src/app.py" 3; mk_entry "src/lib/util.py" 2].
Proof.
  apply hierarchy_complete.
  - simpl. apply NoDup_cons. split; [| apply NoDup_singleton].
    rewrite list_elem_of_singleton. discriminate.
  - intros e1 e2 q H1 H2.
    repeat (apply elem_of_cons in H1 as [->|H1]; [| ]);
      try (by apply elem_of_nil in H1);
    repeat (apply elem_of_cons in H2 as [->|H2]; [| ]);
      try (by apply elem_of_nil in H2);
    simpl; intros H; repeat (injection H as H); try discriminate;
    destruct q; discriminate.
Defined.

End HierarchyExtra.
(* ------------------------------------------------------------------ *)
(** ** The fresh analysis of [main] *)

Section PipelineExtra.
Import PyStr Scorer Hierarchy Pipeline.

(** A file system in which a regular file has nothing below it. *)
Definition fs_consistent (fs : string -> option string) : Prop :=
  forall p q, is_Some (fs p) -> fs (String.append p (String "/"%char q)) = None.

Lemma loc_key_readable (ls : option string) (exclusions : list string)
    (fs : string -> option string) (k : string) (n : Z) :
  Loc.count_lines_of_code ls exclusions fs !! k = Some n -> is_Some (fs k).
Proof.
  destruct ls as [out|]; [| simpl; by rewrite lookup_empty].
  rewrite count_lines_of_code_spec.
  destruct (_ && _ && _); [| discriminate]. destruct (fs k); [by eexists | discriminate].
Qed.

Lemma attach_commits_files (cm : gmap string (list commit_record)) (hs : list entry) :
  map file (attach_commits cm hs) = map file hs.
Proof. unfold attach_commits. rewrite map_map. by apply map_ext. Qed.

Lemma attach_commits_elem (cm : gmap string (list commit_record)) (hs : list entry) (e : entry) :
  e ∈ attach_commits cm hs -> exists h, h ∈ hs /\ e = with_commits cm h.
Proof.
  intros He. apply list_elem_of_In, in_map_iff in He as (h & <- & Hh).
  exists h. split; [by apply list_elem_of_In | done].
Qed.

Lemma hotspots_tree_ok (revs loc : gmap string Z) churn auths (common : list string) (hs : list entry)
    (cm : gmap string (list commit_record)) (fs : string -> option string) :
  common_files_order revs loc common ->
  (forall k n, loc !! k = Some n -> is_Some (fs k)) -> fs_consistent fs ->
  calculate_hotspots revs loc churn auths common = Some hs ->
  NoDup (map file (attach_commits cm hs))
  /\ (forall e1 e2 q, e1 ∈ attach_commits cm hs -> e2 ∈ attach_commits cm hs ->
        file e2 <> String.append (file e1) (String "/"%char q)).
Proof.
  intros [Hnd _] Hfs Hc H. split.
  - rewrite attach_commits_files.
    destruct (calculate_hotspots_inv _ _ _ _ _ _ H) as (hs0 & H0 & ->).
    destruct (score_all_spec _ _ _ _ _ _ _ _ H0) as (_ & _ & Hn).
    assert (Hp : map file (sort_desc hs0) ≡ₚ map file hs0)
      by (apply Permutation_map, sort_desc_perm).
    rewrite Hp. by apply Hn.
  - intros e1 e2 q H1 H2 Heq.
    apply attach_commits_elem in H1 as (h1 & H1 & ->).
    apply attach_commits_elem in H2 as (h2 & H2 & ->). simpl in Heq.
    destruct (scored_entry _ _ _ _ _ _ h1 H H1) as (? & ln1 & ? & ? & _ & Hl1 & _).
    destruct (scored_entry _ _ _ _ _ _ h2 H H2) as (? & ln2 & ? & ? & _ & Hl2 & _).
    pose proof (Hc _ q (Hfs _ _ Hl1)) as Hnone.
    rewrite <- Heq in Hnone. destruct (Hfs _ _ Hl2) as [t Ht]. congruence.
Qed.


(** The tree of a fresh analysis has one leaf per hotspot, at the
    segments of its path, and each leaf carries the commit list of its
    file from [get_commit_messages] (empty when the file has none). *)
Theorem analyze_leaves_carry_commits (names_log numstat_log authors_log commits_log ls_files : option string)
    (exclusions : list string) (fs : string -> option string) (common : list string)
    (hotspots : list entry) (root : hnode) :
  common_files_order (History.get_revision_frequency names_log exclusions)
    (Loc.count_lines_of_code ls_files exclusions fs) common ->
  fs_consistent fs ->
  analyze names_log numstat_log authors_log commits_log ls_files exclusions fs common
    = Analyzed hotspots root ->
  tree_leaves root ≡ₚ map leaf_entry hotspots
  /\ forall ps i, (ps, i) ∈ tree_leaves root ->
     ps = split "/"%char (fullPath i)
     /\ leaf_commits i = Some (default [] (History.get_commit_messages commits_log exclusions !! fullPath i)).
Proof.
  intros Hord Hfs. unfold analyze; cbv zeta.
  destruct (calculate_hotspots _ _ _ _ common) as [hs|] eqn:Hhs; [| discriminate].
  destruct (hotspots_tree_ok _ _ _ _ _ _ (History.get_commit_messages commits_log exclusions) fs Hord
              (loc_key_readable ls_files exclusions fs) Hfs Hhs) as [Hnd Hpre].
  destruct (hierarchy_complete _ Hnd Hpre) as (root' & Hb & Hp).
  destruct (attach_commits _ hs) as [|h t] eqn:Ha; [discriminate |].
  rewrite Hb. intros Heq. injection Heq as <- <-.
  split; [exact Hp |].
  intros ps i Hin. rewrite Hp in Hin.
  apply list_elem_of_In, in_map_iff in Hin as (e & He & Hin).
  assert (He' : e ∈ attach_commits (History.get_commit_messages commits_log exclusions) hs)
    by (rewrite Ha; by apply list_elem_of_In).
  apply attach_commits_elem in He' as (h0 & _ & ->).
  unfold leaf_entry in He. injection He as <- <-. simpl. done.
Qed.

Definition ex_src : string :=
  Eval vm_compute in terminated (String History.newline EmptyString) EmptyString
    ["import os"; ""; "def f():"; "    return 1"; ""; "def g():"; "    return 2"; "";
     "class A:"; "    pass"; ""; "print(f())"].

Definition ex_fs (p : string) : option string :=
  if String.eqb p "src/app.py" then Some ex_src else None.

Lemma ex_fs_consistent : fs_consistent ex_fs.
Proof.
  intros p q [t Ht]. unfold ex_fs in *.
  destruct (String.eqb_spec p "src/app.py") as [->|]; [| discriminate].
  reflexivity.
Qed.

Lemma ex_order : common_files_order (History.get_revision_frequency (Some "src/app.py") [])
                   (Loc.count_lines_of_code (Some "src/app.py") [] ex_fs) ["src/app.py"].
Proof.
  assert (Hr : History.get_revision_frequency (Some "src/app.py") [] = <["src/app.py" := 1]> ∅)
    by (vm_compute; reflexivity).
  assert (Hl : Loc.count_lines_of_code (Some "src/app.py") [] ex_fs = <["src/app.py" := 12]> ∅)
    by (vm_compute; reflexivity).
  rewrite Hr, Hl. split; [apply NoDup_singleton |].
  intros f. rewrite list_elem_of_singleton. split.
  - intros ->. rewrite !lookup_insert_eq. split; by eexists.
  - intros [[v Hv] _]. destruct (String.eqb_spec f "src/app.py") as [|Hne]; [done |].
    rewrite lookup_insert_ne in Hv by congruence. by rewrite lookup_empty in Hv.
Qed.

Definition ex_commit_log : string :=
  String.append "COMMIT:ab1|ann|2024-05-01|Add app" (String History.newline "src/app.py").


Definition ex_run_hotspots : list entry :=
  Eval vm_compute in
    match analyze (Some "src/app.py") None None (Some ex_commit_log) (Some "src/app.py") [] ex_fs ["src/app.py"] with
    | Analyzed hs _ => hs
    | _ => []
    end.

Definition ex_run_root : hnode :=
  Eval vm_compute in
    match analyze (Some "src/app.py") None None (Some ex_commit_log) (Some "src/app.py") [] ex_fs ["src/app.py"] with
    | Analyzed _ r => r
    | _ => HBare "root"
    end.

Lemma analyze_leaves_carry_commits_witness :
  analyze (Some "src/app.py") None None (Some ex_commit_log) (Some "src/app.py") [] ex_fs ["src/app.py"]
    = Analyzed ex_run_hotspots ex_run_root
  /\ map (fun pi => leaf_commits pi.2) (tree_leaves ex_run_root)
     = [Some [{| hash := "ab1"; author := "ann"; date := "2024-05-01"; message := "Add app" |}]]
  /\ tree_leaves ex_run_root ≡ₚ map leaf_entry ex_run_hotspots.
Proof.
  assert (H : analyze (Some "src/app.py") None None (Some ex_commit_log) (Some "src/app.py") [] ex_fs
                ["src/app.py"] = Analyzed ex_run_hotspots ex_run_root) by (vm_compute; reflexivity).
  split; [exact H |]. split; [vm_compute; reflexivity |].
  exact (proj1 (analyze_leaves_carry_commits _ _ _ _ _ _ _ _ _ _ ex_order ex_fs_consistent H)).
Defined.

End PipelineExtra.
